(** * Artificix Telegram bot ([bot.py]): a shallow embedding and its properties

    The bot is a set of pyTelegramBotAPI handlers.  Handlers are embedded as
    computations in a small state-and-exception monad over a [World] that
    holds what the handlers act on: the next-step registry, the messages
    handed to the transport, the started timers, the log, and the outcomes
    the environment will produce (transport faults, the fetched news page,
    random picks). *)

From Stdlib Require Import ZArith String Ascii List Lia DecimalString.
From stdpp Require Import base gmap strings list.

Local Open Scope Z_scope.
Local Open Scope string_scope.

(** ** Python values used by the handlers *)

(** A Python [str] is represented by its UTF-8 encoding, a [string] of
    bytes.  Two [str] are equal exactly when their encodings are, and one
    occurs in the other exactly when its encoding does; the number of
    characters is [Py.len], not the number of bytes. *)

Module Py.

(** Exceptions are instances of [Exception].  Their class matters to
    [bot.py] in one way: [except ValueError] catches the first class only,
    [except Exception] all of them. *)
Inductive ExcClass := ValueError | TypeError | OtherException.

Record Exc := mkExc { exc_class : ExcClass; exc_str : string }.

Definition is_ValueError (e : Exc) : bool :=
  match exc_class e with ValueError => true | _ => false end.

Inductive Result (A : Type) : Type :=
| Ok (a : A)
| Raise (e : Exc).
Arguments Ok {A} a.
Arguments Raise {A} e.

(** [str(n)] for an [int]. *)
Definition str_of_int (n : Z) : string := NilZero.string_of_int (Z.to_int n).

(** [f'{x}'] for a value that is a [str] or [None]. *)
Definition format_opt (x : option string) : string :=
  match x with Some s => s | None => "None" end.

(** [x or d] for a value that is a [str] or [None]: the empty string is
    falsy as well. *)
Definition or_else (x : option string) (d : string) : string :=
  match x with
  | Some s => if String.eqb s "" then d else s
  | None => d
  end.

(** [len(s)]: the number of characters of [s].  In UTF-8 every character
    is one byte that is no continuation byte, followed by continuation
    bytes (the bytes from 128 to 191) only. *)
Definition is_continuation (a : ascii) : bool :=
  let n := nat_of_ascii a in (128 <=? n)%nat && (n <=? 191)%nat.

Fixpoint len (s : string) : nat :=
  match s with
  | EmptyString => 0
  | String a s' => if is_continuation a then len s' else S (len s')
  end.

(** The ASCII characters [int] skips around a literal: tab, newline,
    vertical tab, form feed, carriage return and space. *)
Definition is_literal_space (a : ascii) : bool :=
  let n := nat_of_ascii a in
  ((9 <=? n)%nat && (n <=? 13)%nat) || (n =? 32)%nat.

Fixpoint lstrip (s : string) : string :=
  match s with
  | String a s' => if is_literal_space a then lstrip s' else s
  | EmptyString => EmptyString
  end.

Fixpoint rstrip (s : string) : string :=
  match s with
  | String a s' =>
      match rstrip s' with
      | EmptyString => if is_literal_space a then EmptyString else String a EmptyString
      | r => String a r
      end
  | EmptyString => EmptyString
  end.

Definition strip (s : string) : string := rstrip (lstrip s).

Definition digit_val (a : ascii) : option Z :=
  let n := nat_of_ascii a in
  if ((48 <=? n)%nat && (n <=? 57)%nat) then Some (Z.of_nat n - 48) else None.

(** Decimal digits, single underscores allowed between two digits. *)
Fixpoint int_digits (after_digit : bool) (acc : Z) (s : string) : option Z :=
  match s with
  | EmptyString => if after_digit then Some acc else None
  | String a s' =>
      if Ascii.eqb a "_"%char then
        if after_digit then int_digits false acc s' else None
      else
        match digit_val a with
        | Some d => int_digits true (10 * acc + d) s'
        | None => None
        end
  end.

(** The integer an ASCII string is the literal of, if any: blanks around
    it, an optional sign, then the digits. *)
Definition int_literal (s : string) : option Z :=
  match strip s with
  | String "-"%char ds => Z.opp <$> int_digits false 0 ds
  | String "+"%char ds => int_digits false 0 ds
  | ds => int_digits false 0 ds
  end.

(** The strings on which every interpreter agrees about [int]: ASCII only,
    so that no character of another script can stand for a digit or a
    space, and of at most 640 characters, below which the limit on the
    number of digits ([sys.set_int_max_str_digits]) never applies. *)
Fixpoint is_ascii (s : string) : bool :=
  match s with
  | EmptyString => true
  | String a s' => (nat_of_ascii a <? 128)%nat && is_ascii s'
  end.

Definition plain (s : string) : bool :=
  is_ascii s && (String.length s <=? 640)%nat.

(** [int(x)] where [x] is [message.text]: a [str] or [None].  [None] raises
    [TypeError].  A plain string is an integer literal, or raises
    [ValueError].  What [int] makes of any other string depends on the
    interpreter (its Unicode tables, its limit on the number of digits) and
    is asked of it: [beyond]. *)
Definition int (beyond : string -> Result Z) (x : option string) : Result Z :=
  match x with
  | None =>
      Raise (mkExc TypeError
               "int() argument must be a string, a bytes-like object or a real number, not 'NoneType'")
  | Some s =>
      if plain s then
        match int_literal s with
        | Some n => Ok n
        | None => Raise (mkExc ValueError ("invalid literal for int() with base 10: " ++ s))
        end
      else beyond s
  end.

End Py.

Import Py.

(** ** Messages, continuations and the world *)

(** An inbound [telebot.types.Message]: [message.chat.id], [message.chat.type]
    and [message.text], which is [None] for a message that carries no text
    (a photo, a sticker). *)
Record Message := mkMessage {
  message_id : Z;
  chat_id : Z;
  chat_type : string;
  text : option string
}.

(** What [register_next_step_handler] stores: the callback and the
    arguments it was registered with. *)
Inductive Continuation :=
| K_get_min
| K_set_reminder (reminder_text : option string)
| K_handle_sports_type
| K_handle_favorite_team
| K_handle_current_season
| K_handle_next_sport
| K_handle_new_sport
| K_handle_new_hobby
| K_handle_book_type
| K_handle_fav_book
| K_handle_fav_type
| K_handle_fav_song
| K_handle_artist
| K_handle_event_art.

(** A registration: the continuation and the serial number of the
    [register_next_step_handler] call that stored it.  The serial number is
    bookkeeping of the model, it tells two registrations of the same
    callback apart. *)
Record Pending := mkPending { serial : nat; cont : Continuation }.

(** A message handed to the transport by [bot.send_message] or
    [bot.reply_to]. *)
Record Outbound := mkOutbound {
  out_chat : Z;
  out_text : string;
  out_reply_to : option Z;
  out_markup : option (list string)
}.

(** A started [threading.Timer] whose callback is the closure [send] of
    [schedule_reminder]: the closure captures [chat_id] and [text]. *)
Record Timer := mkTimer {
  t_chat : Z;
  t_text : option string;
  t_interval : Z;
  t_started : Z
}.

Inductive Level := INFO | WARNING | ERROR.

Record LogRecord := mkLog {
  log_level : Level;
  log_msg : string;
  log_exc : option Exc
}.

(** The web as [fetch_bbc_headlines] sees it: what [requests.get] followed
    by [raise_for_status] produces (the page text, or an exception), and
    what parsing a page text and collecting the stripped texts of its [h3]
    elements produces. *)
Record Web := mkWeb {
  http_get : Result string;
  h3_texts : string -> Result (list string)
}.

(** What the bot takes from the interpreter and the platform it runs on:
    [int] on the strings that are not plain, and [threading.TIMEOUT_MAX],
    in seconds. *)
Record Runtime := mkRuntime {
  int_beyond : string -> Result Z;
  TIMEOUT_MAX : Z
}.

Record World := mkWorld {
  registry : gmap Z Pending;
  next_serial : nat;
  invoked : list nat;
  outbox : list Outbound;
  timers : list Timer;
  log : list LogRecord;
  clock : Z;
  faults : list (option Exc);
  bbc : Web;
  rand : list nat;
  runtime : Runtime
}.

Definition set_registry (f : gmap Z Pending -> gmap Z Pending) (w : World) : World :=
  mkWorld (f (registry w)) (next_serial w) (invoked w) (outbox w) (timers w)
    (log w) (clock w) (faults w) (bbc w) (rand w) (runtime w).

Definition set_next_serial (n : nat) (w : World) : World :=
  mkWorld (registry w) n (invoked w) (outbox w) (timers w)
    (log w) (clock w) (faults w) (bbc w) (rand w) (runtime w).

Definition set_invoked (l : list nat) (w : World) : World :=
  mkWorld (registry w) (next_serial w) l (outbox w) (timers w)
    (log w) (clock w) (faults w) (bbc w) (rand w) (runtime w).

Definition set_outbox (l : list Outbound) (w : World) : World :=
  mkWorld (registry w) (next_serial w) (invoked w) l (timers w)
    (log w) (clock w) (faults w) (bbc w) (rand w) (runtime w).

Definition set_timers (l : list Timer) (w : World) : World :=
  mkWorld (registry w) (next_serial w) (invoked w) (outbox w) l
    (log w) (clock w) (faults w) (bbc w) (rand w) (runtime w).

Definition set_log (l : list LogRecord) (w : World) : World :=
  mkWorld (registry w) (next_serial w) (invoked w) (outbox w) (timers w)
    l (clock w) (faults w) (bbc w) (rand w) (runtime w).

Definition set_clock (t : Z) (w : World) : World :=
  mkWorld (registry w) (next_serial w) (invoked w) (outbox w) (timers w)
    (log w) t (faults w) (bbc w) (rand w) (runtime w).

Definition set_faults (l : list (option Exc)) (w : World) : World :=
  mkWorld (registry w) (next_serial w) (invoked w) (outbox w) (timers w)
    (log w) (clock w) l (bbc w) (rand w) (runtime w).

Definition set_bbc (b : Web) (w : World) : World :=
  mkWorld (registry w) (next_serial w) (invoked w) (outbox w) (timers w)
    (log w) (clock w) (faults w) b (rand w) (runtime w).

Definition set_rand (l : list nat) (w : World) : World :=
  mkWorld (registry w) (next_serial w) (invoked w) (outbox w) (timers w)
    (log w) (clock w) (faults w) (bbc w) l (runtime w).

Definition set_runtime (r : Runtime) (w : World) : World :=
  mkWorld (registry w) (next_serial w) (invoked w) (outbox w) (timers w)
    (log w) (clock w) (faults w) (bbc w) (rand w) r.

(** ** The monad of handlers: state and Python exceptions *)

Definition M (A : Type) : Type := World -> Result A * World.

Definition ret {A} (a : A) : M A := fun w => (Ok a, w).

Definition bind {A B} (m : M A) (k : A -> M B) : M B :=
  fun w =>
    match m w with
    | (Ok a, w') => k a w'
    | (Raise e, w') => (Raise e, w')
    end.

Definition lift {A} (r : Result A) : M A := fun w => (r, w).

(** [try: body / except <catches>: handler].  Effects of [body] before the
    exception stay. *)
Definition try_except {A} (body : M A) (catches : Exc -> bool) (handler : Exc -> M A) : M A :=
  fun w =>
    match body w with
    | (Ok a, w') => (Ok a, w')
    | (Raise e, w') => if catches e then handler e w' else (Raise e, w')
    end.

(** [for item in items: body(item)]. *)
Fixpoint for_each {A} (items : list A) (body : A -> M unit) : M unit :=
  match items with
  | [] => ret tt
  | x :: rest => bind (body x) (fun _ => for_each rest body)
  end.

Declare Scope bot_scope.
Delimit Scope bot_scope with bot.
Notation "'let*' x ':=' m 'in' k" := (bind m (fun x => k))
  (at level 10, x name, m at level 100, k at level 200) : bot_scope.
Notation "m '>>' k" := (bind m (fun _ => k))
  (at level 90, right associativity) : bot_scope.
Local Open Scope bot_scope.

(** ** The library operations the handlers call *)

(** Hand one message to the transport.  The next entry of [faults] decides
    whether the call raises; with no entry left it succeeds. *)
Definition transport_send (o : Outbound) : M unit :=
  fun w =>
    match faults w with
    | Some e :: rest => (Raise e, set_faults rest w)
    | None :: rest => (Ok tt, set_outbox (outbox w ++ [o]) (set_faults rest w))
    | [] => (Ok tt, set_outbox (outbox w ++ [o]) w)
    end.

(** [bot.send_message(chat_id, text)].  The handlers use the returned
    message only for its [chat.id], which is the chat it was sent to. *)
Definition send_message (chat : Z) (txt : string) : M Z :=
  transport_send (mkOutbound chat txt None None) >> ret chat.

(** [bot.reply_to(message, text, reply_markup=...)]. *)
Definition reply_to (m : Message) (txt : string) (markup : option (list string)) : M unit :=
  transport_send (mkOutbound (chat_id m) txt (Some (message_id m)) markup).

Definition logger_record (r : LogRecord) : M unit :=
  fun w => (Ok tt, set_log (log w ++ [r]) w).

(** [threading.Timer(interval, send).start()].  [start] returns at once.
    A timer whose interval is past [threading.TIMEOUT_MAX] raises
    [OverflowError] in its own thread as soon as it waits, and never calls
    [send]: it is not among the timers that will fire. *)
Definition timer_start (t_chat : Z) (t_text : option string) (interval : Z) : M unit :=
  fun w =>
    if (interval <=? TIMEOUT_MAX (runtime w))%Z then
      (Ok tt, set_timers (timers w ++ [mkTimer t_chat t_text interval (clock w)]) w)
    else (Ok tt, w).

(** [int(x)] as the interpreter of the world computes it. *)
Definition int_of (w : World) (x : option string) : Result Z :=
  Py.int (int_beyond (runtime w)) x.

Definition py_int (x : option string) : M Z := fun w => (int_of w x, w).

(** [random.choice(seq)] for a non-empty [seq]. *)
Definition random_choice (seq : list string) : M string :=
  fun w =>
    let n := match rand w with n :: _ => n | [] => 0%nat end in
    (Ok (nth (n mod length seq) seq ""), set_rand (tl (rand w)) w).

Definition requests_get : M string := fun w => (http_get (bbc w), w).

Definition soup_h3_texts (page : string) : M (list string) :=
  fun w => (h3_texts (bbc w) page, w).

Definition logger_warning (msg : string) : M unit := logger_record (mkLog WARNING msg None).
Definition logger_info (msg : string) : M unit := logger_record (mkLog INFO msg None).
Definition logger_exception (msg : string) (e : Exc) : M unit :=
  logger_record (mkLog ERROR msg (Some e)).

(** *** The next-step registry

    The registry of pending next-step handlers lives in pyTelegramBotAPI,
    not in [bot.py]; it is taken from section 4.1 of the specification. *)
Module Registry.

(** Modelled from the spec: [register(chatId, continuation)] installs or
    overwrites the pending continuation of a chat. *)
Definition register (chat : Z) (p : Pending) (r : gmap Z Pending) : gmap Z Pending :=
  <[chat := p]> r.

(** Modelled from the spec: [take(chatId)] retrieves and clears the
    continuation of a chat, and returns none when nothing is pending. *)
Definition take (chat : Z) (r : gmap Z Pending) : option Pending * gmap Z Pending :=
  (r !! chat, delete chat r).

(** The calls a run makes on the registry. *)
Inductive Op :=
| Register (chat : Z) (p : Pending)
| Take (chat : Z).

Definition run_op (o : Op) (r : gmap Z Pending) : gmap Z Pending :=
  match o with
  | Register chat p => register chat p r
  | Take chat => snd (take chat r)
  end.

Definition run_ops (ops : list Op) (r : gmap Z Pending) : gmap Z Pending :=
  foldl (fun r o => run_op o r) r ops.

Definition registers (chat : Z) (o : Op) : Prop :=
  match o with
  | Register c _ => c = chat
  | Take _ => False
  end.

End Registry.

(** [bot.register_next_step_handler(message, callback, *args)]: a
    [register] keyed by [message.chat.id]. *)
Definition register_next_step_handler (chat : Z) (k : Continuation) : M unit :=
  fun w =>
    (Ok tt,
     set_next_serial (S (next_serial w))
       (set_registry (Registry.register chat (mkPending (next_serial w) k)) w)).

(** The [take] the dispatcher starts with. *)
Definition take_next_step_handler (chat : Z) : M (option Pending) :=
  fun w =>
    let '(p, r) := Registry.take chat (registry w) in
    (Ok p, set_registry (fun _ => r) w).

(** Bookkeeping of the model: the registration [p] is being invoked. *)
Definition note_invoked (p : Pending) : M unit :=
  fun w => (Ok tt, set_invoked (serial p :: invoked w) w).

(** ** [bot.py] *)

Definition nl : string := String (ascii_of_nat 10) EmptyString.

Definition MAX_NEWS_ITEMS : Z := 10.

(** *** Utilities *)

(** The loop of [fetch_bbc_headlines] that filters the headlines into
    [cleaned]. *)
Fixpoint clean_loop (limit : Z) (headlines cleaned : list string) : list string :=
  match headlines with
  | [] => cleaned
  | h :: rest =>
      if (Py.len h <? 5)%nat then clean_loop limit rest cleaned
      else if existsb (String.eqb h) cleaned then clean_loop limit rest cleaned
      else
        let cleaned' := (cleaned ++ [h])%list in
        if (Z.of_nat (length cleaned') >=? limit)%Z then cleaned'
        else clean_loop limit rest cleaned'
  end.

Definition fetch_bbc_headlines (limit : Z) : M (list string) :=
  let* fetched :=
    try_except
      (let* page := requests_get in ret (inl page))
      (fun _ => true)
      (fun e =>
         logger_warning ("Failed to fetch BBC headlines: " ++ exc_str e) >>
         ret (inr ["Could not fetch news: " ++ exc_str e])) in
  match fetched with
  | inr early => ret early
  | inl page =>
      try_except
        (let* headlines := soup_h3_texts page in
         let cleaned := clean_loop limit headlines [] in
         match cleaned with
         | [] => ret ["No headlines found."]
         | _ => ret cleaned
         end)
        (fun _ => true)
        (fun e =>
           logger_exception "Error parsing BBC page" e >>
           ret ["Error parsing news page: " ++ exc_str e])
  end.

(** The closure [send] inside [schedule_reminder]. *)
Definition send (chat : Z) (txt : option string) : M unit :=
  try_except
    (send_message chat ("Reminder: " ++ format_opt txt) >> ret tt)
    (fun _ => true)
    (fun e => logger_exception ("Failed to send reminder to " ++ str_of_int chat) e).

Definition schedule_reminder (chat : Z) (minutes : Z) (txt : option string) : M unit :=
  timer_start chat txt (minutes * 60) >>
  logger_info ("Scheduled reminder for chat " ++ str_of_int chat ++ " in "
               ++ str_of_int minutes ++ " minute(s)").

(** *** Bot command handlers *)

Definition start (message : Message) : M unit :=
  reply_to message "Hello — this is Artificix bot. Use /help for available commands." None.

Definition help_text : string :=
  "Here are the possible commands:" ++ nl ++
  "/alert - set a reminder" ++ nl ++
  "/chat - start an interactive chat" ++ nl ++
  "/news - get latest news headlines" ++ nl ++
  "/about - about this bot" ++ nl ++
  "/contact - contact links" ++ nl ++
  "/quote - random quote" ++ nl ++
  "/extra - extra commands (private chats only)" ++ nl.

Definition help_cmd (message : Message) : M unit :=
  send_message (chat_id message) help_text >> ret tt.

Definition about (message : Message) : M unit :=
  send_message (chat_id message)
    "Hi — I'm @Artificix_prototype_bot. I'm a simple Telegram bot that can set alerts and chat with you."
  >> ret tt.

Definition contact (message : Message) : M unit :=
  send_message (chat_id message)
    "You can contact us at https://t.me/Sneh_Joshi or https://t.me/Itachi98089"
  >> ret tt.

Definition quotes : list string := [
  "Life is abundant, and life is beautiful. - Alice Walker";
  "Keep your head high, keep your chin up, and most importantly, keep smiling. - Marilyn Monroe";
  "I think being in love with life is a key to eternal youth. - Doug Hutchison";
  "Life is beautiful and so are you. - Debasish Mridha";
  "The purpose of our lives is to be happy. - Dalai Lama";
  "Life is really simple, but we insist on making it complicated. - Confucius";
  "Life is like riding a bicycle. To keep your balance, you must keep moving. - Albert Einstein"
].

Definition send_quote (message : Message) : M unit :=
  let* quote := random_choice quotes in
  reply_to message quote None.

(** *** Extra commands (private only) *)

Definition extra_commands_message : string :=
  "Here are the extra commands:" ++ nl ++
  "/flower, /animal, /food, /wonder, /vehicle, /country".

Definition extra_refusal : string :=
  "The /extra command and its subcommands are not available in group chats.".

Definition extra (message : Message) : M unit :=
  let chat := chat_id message in
  if String.eqb (chat_type message) "private" then
    send_message chat extra_commands_message >> ret tt
  else
    send_message chat extra_refusal >> ret tt.

Definition private_only_refusal : string :=
  "This command is only available in private chats.".

Definition send_list_privately (msg : Message) (items : list string) : M unit :=
  let chat := chat_id msg in
  if negb (String.eqb (chat_type msg) "private") then
    send_message chat private_only_refusal >> ret tt
  else
    for_each items (fun item => send_message chat item >> ret tt).

Definition flowers : list string := [
  "Rose"; "Lily"; "Daisy"; "Tulip"; "Sunflower"; "Orchid"; "Carnation";
  "Peony"; "Chrysanthemum"; "Hydrangea"; "Iris"; "Poppy"; "Marigold"; "Gerbera"
].

Definition flower (message : Message) : M unit := send_list_privately message flowers.

Definition animals : list string := [
  "Lion"; "Tiger"; "Elephant"; "Giraffe"; "Hippopotamus"; "Crocodile";
  "Monkey"; "Kangaroo"; "Penguin"; "Zebra"; "Hedgehog"; "Panda"; "Koala"; "Gorilla"
].

Definition animal (message : Message) : M unit := send_list_privately message animals.

Definition foods : list string := [
  "Pizza"; "Burger"; "Taco"; "Sushi"; "Pasta"; "Fried Chicken"; "Steak";
  "Noodle Soup"; "Hotdog"; "Ramen"
].

Definition food (message : Message) : M unit := send_list_privately message foods.

Definition vehicles : list string := [
  "Car"; "Truck"; "Motorcycle"; "Bicycle"; "Boat"; "Airplane";
  "Helicopter"; "Train"; "Bus"; "Scooter"
].

Definition vehicle (message : Message) : M unit := send_list_privately message vehicles.

Definition countries : list string := [
  "USA"; "Canada"; "UK"; "Germany"; "France"; "Italy"; "Japan"; "China";
  "Brazil"; "Russia"; "India"
].

Definition country (message : Message) : M unit := send_list_privately message countries.

Definition wonders : list string := [
  "Great Pyramid of Giza"; "Hanging Gardens of Babylon";
  "Temple of Artemis at Ephesus"; "Statue of Zeus at Olympia";
  "Mausoleum at Halicarnassus"; "Colossus of Rhodes"; "Lighthouse of Alexandria"
].

Definition wonder (message : Message) : M unit := send_list_privately message wonders.

(** *** Alert (reminder) flow *)

Definition get_name (message : Message) : M unit :=
  let txt := "What should I remind you about?" in
  let* sent_msg := send_message (chat_id message) txt in
  register_next_step_handler sent_msg K_get_min.

Definition get_min (message : Message) : M unit :=
  let txt := "In how many minutes? (Please enter time in minutes)" in
  let* sent_msg := send_message (chat_id message) txt in
  register_next_step_handler sent_msg (K_set_reminder (text message)).

Definition set_reminder (message : Message) (reminder_text : option string) : M unit :=
  try_except
    (let* minutes := py_int (text message) in
     if (minutes <=? 0)%Z then
       reply_to message "Please enter a positive number of minutes." None
     else
       send_message (chat_id message)
         ("Reminder set for " ++ str_of_int minutes ++ " minutes: " ++ format_opt reminder_text) >>
       schedule_reminder (chat_id message) minutes reminder_text)
    is_ValueError
    (fun _ => reply_to message "Invalid number of minutes. Please enter a positive integer." None).

(** *** News command *)

Definition send_news (message : Message) : M unit :=
  let chat := chat_id message in
  if negb (String.eqb (chat_type message) "private") then
    send_message chat "News is not available in group chats." >> ret tt
  else
    let* headlines := fetch_bbc_headlines MAX_NEWS_ITEMS in
    for_each headlines (fun item => send_message chat item >> ret tt).

(** *** Chatbot interactive keyboard *)

Definition keyboard_markup : list string := ["Sports"; "Reading"; "Music"; "Art"].

Definition send_welcome (message : Message) : M unit :=
  reply_to message
    "Hi there! I'm a chatbot that can chat with you about your interests. Choose an option:"
    (Some keyboard_markup).

Definition handle_message (message : Message) : M unit :=
  let txt := or_else (text message) "" in
  if String.eqb txt "Sports" then
    reply_to message "Great choice! What kind of sports are you interested in?" None >>
    register_next_step_handler (chat_id message) K_handle_sports_type
  else if String.eqb txt "Reading" then
    reply_to message "Awesome! What kind of books do you like to read?" None >>
    register_next_step_handler (chat_id message) K_handle_book_type
  else if String.eqb txt "Music" then
    reply_to message "Cool! What kind of music do you like to listen to?" None >>
    register_next_step_handler (chat_id message) K_handle_fav_type
  else if String.eqb txt "Art" then
    reply_to message "Awesome! Are you an artist?" None >>
    register_next_step_handler (chat_id message) K_handle_artist
  else ret tt.

Definition handle_sports_type (message : Message) : M unit :=
  reply_to message "Nice! What's your favorite team?" None >>
  register_next_step_handler (chat_id message) K_handle_favorite_team.

Definition handle_favorite_team (message : Message) : M unit :=
  reply_to message "Great choice! What do you think of their current season so far?" None >>
  register_next_step_handler (chat_id message) K_handle_current_season.

Definition handle_current_season (message : Message) : M unit :=
  reply_to message "Do you think they can improve ?" None >>
  register_next_step_handler (chat_id message) K_handle_next_sport.

Definition handle_next_sport (message : Message) : M unit :=
  reply_to message "What else sports you are interested in?" None >>
  register_next_step_handler (chat_id message) K_handle_new_sport.

Definition handle_new_sport (message : Message) : M unit :=
  reply_to message ("have you taken part in " ++ or_else (text message) "that sport" ++ "?") None >>
  register_next_step_handler (chat_id message) K_handle_new_hobby.

Definition handle_new_hobby (message : Message) : M unit :=
  reply_to message "Great to know!" None.

Definition handle_book_type (message : Message) : M unit :=
  reply_to message "What is your favourite book?" None >>
  register_next_step_handler (chat_id message) K_handle_fav_book.

Definition handle_fav_book (message : Message) : M unit :=
  reply_to message "Great to know" None.

Definition handle_fav_type (message : Message) : M unit :=
  reply_to message "Amazing choice. What's your fav song?" None >>
  register_next_step_handler (chat_id message) K_handle_fav_song.

Definition handle_fav_song (message : Message) : M unit :=
  reply_to message "Great choice!" None.

Definition handle_artist (message : Message) : M unit :=
  reply_to message "Have you taken part in any art event?" None >>
  register_next_step_handler (chat_id message) K_handle_event_art.

Definition handle_event_art (message : Message) : M unit :=
  reply_to message "Great to know!" None.

(** ** Dispatch of inbound messages *)

(** The callback a stored continuation stands for, applied to the message
    and to the arguments it was registered with. *)
Definition run_continuation (k : Continuation) (message : Message) : M unit :=
  match k with
  | K_get_min => get_min message
  | K_set_reminder reminder_text => set_reminder message reminder_text
  | K_handle_sports_type => handle_sports_type message
  | K_handle_favorite_team => handle_favorite_team message
  | K_handle_current_season => handle_current_season message
  | K_handle_next_sport => handle_next_sport message
  | K_handle_new_sport => handle_new_sport message
  | K_handle_new_hobby => handle_new_hobby message
  | K_handle_book_type => handle_book_type message
  | K_handle_fav_book => handle_fav_book message
  | K_handle_fav_type => handle_fav_type message
  | K_handle_fav_song => handle_fav_song message
  | K_handle_artist => handle_artist message
  | K_handle_event_art => handle_event_art message
  end.

(** The [@bot.message_handler(commands=[...])] decorators of [bot.py], in
    the order they are applied. *)
Definition command_handlers : list (string * (Message -> M unit)) := [
  ("start", start); ("help", help_cmd); ("about", about); ("contact", contact);
  ("quote", send_quote); ("extra", extra); ("flower", flower); ("animal", animal);
  ("food", food); ("vehicle", vehicle); ("country", country); ("wonder", wonder);
  ("alert", get_name); ("news", send_news); ("chat", send_welcome)
].

Fixpoint take_until (stop : ascii -> bool) (s : string) : string :=
  match s with
  | EmptyString => EmptyString
  | String a s' => if stop a then EmptyString else String a (take_until stop s')
  end.

(** Modelled from the spec: where a command token ends (section 4.2 speaks
    of a command token and leaves its end open): at the first [@] or ASCII
    separator, the characters 9 to 13 and 28 to 32. *)
Definition ends_token (a : ascii) : bool :=
  let n := nat_of_ascii a in
  Ascii.eqb a "@"%char ||
  ((9 <=? n)%nat && (n <=? 13)%nat) || ((28 <=? n)%nat && (n <=? 32)%nat).

(** Modelled from the spec: the command token of a message text (section
    4.2: exact match on a command token introduced by the command marker);
    the extraction itself is pyTelegramBotAPI's.  The token is what follows
    the leading [/] up to its end. *)
Definition extract_command (txt : string) : option string :=
  match txt with
  | String "/"%char rest => Some (take_until ends_token rest)
  | _ => None
  end.

Fixpoint lookup_command (table : list (string * (Message -> M unit))) (name : string)
  : option (Message -> M unit) :=
  match table with
  | [] => None
  | (n, h) :: rest => if String.eqb n name then Some h else lookup_command rest name
  end.

Definition command_of (message : Message) : option (Message -> M unit) :=
  match text message with
  | Some txt =>
      match extract_command txt with
      | Some name => lookup_command command_handlers name
      | None => None
      end
  | None => None
  end.

(** Modelled from the spec: the dispatcher of section 4.2, which in the
    repository is pyTelegramBotAPI's message loop.  First the pending
    continuation of the chat is taken; if there is one it is invoked with
    the message and nothing else runs.  Otherwise a matching command handler
    runs, and failing that the fallback handler [handle_message]. *)
Definition process_new_message (message : Message) : M unit :=
  let* pending := take_next_step_handler (chat_id message) in
  match pending with
  | Some p => note_invoked p >> run_continuation (cont p) message
  | None =>
      match command_of message with
      | Some handler => handler message
      | None => handle_message message
      end
  end.

(** ** Timers *)

(** A timer is due once its interval has elapsed since it was started. *)
Definition due (t : Timer) (w : World) : bool :=
  (t_started t + t_interval t <=? clock w)%Z.

(** A due timer runs its callback once and is gone: [threading.Timer] is
    one-shot. *)
Definition fire (i : nat) : M unit :=
  fun w =>
    match timers w !! i with
    | Some t =>
        if due t w then
          send (t_chat t) (t_text t) (set_timers (delete i (timers w)) w)
        else (Ok tt, w)
    | None => (Ok tt, w)
    end.

(** ** Runs *)

Inductive Event :=
| Inbound (message : Message)
| Elapse (seconds : N)
| Fire (i : nat)
| Outage (fs : list (option Exc))
| Publish (b : Web)
| Seed (r : list nat)
| Boot (r : Runtime).

Definition step (e : Event) : M unit :=
  match e with
  | Inbound message => process_new_message message
  | Elapse seconds => fun w => (Ok tt, set_clock (clock w + Z.of_N seconds) w)
  | Fire i => fire i
  | Outage fs => fun w => (Ok tt, set_faults fs w)
  | Publish b => fun w => (Ok tt, set_bbc b w)
  | Seed r => fun w => (Ok tt, set_rand r w)
  | Boot r => fun w => (Ok tt, set_runtime r w)
  end.

(** An exception that escapes a handler ends that handler only: polling
    goes on ([none_stop=True]). *)
Definition run (events : list Event) (w : World) : World :=
  foldl (fun w e => snd (step e w)) w events.

(** The runtime of a world in which no [Boot] has said what the bot runs
    on: the [TIMEOUT_MAX] of CPython on 64-bit Linux, and a stand-in for
    [int] that turns down every string that is not plain. *)
Definition unknown_runtime : Runtime :=
  mkRuntime
    (fun s => Raise (mkExc ValueError ("invalid literal for int() with base 10: " ++ s)))
    9223372036.

Definition initial_world (b : Web) : World :=
  mkWorld ∅ 0 [] [] [] [] 0 [] b [] unknown_runtime.

(** ** Vocabulary of the properties *)

(** What [bot.send_message(chat, txt)] hands to the transport. *)
Definition sent (chat : Z) (txt : string) : Outbound := mkOutbound chat txt None None.

(** What [bot.reply_to(m, txt)] hands to the transport. *)
Definition replied (m : Message) (txt : string) : Outbound :=
  mkOutbound (chat_id m) txt (Some (message_id m)) None.


(** The two error replies of [set_reminder]. *)
Definition please_positive : string := "Please enter a positive number of minutes.".

Definition invalid_minutes : string :=
  "Invalid number of minutes. Please enter a positive integer.".

(** The four topics of the keyboard, and the text that selects each. *)
Inductive Topic := Sports | Reading | Music | Art.

Definition keyword (t : Topic) : string :=
  match t with
  | Sports => "Sports"
  | Reading => "Reading"
  | Music => "Music"
  | Art => "Art"
  end.

(** What the bot answers to the keyword of a topic. *)
Definition opening_prompt (t : Topic) : string :=
  match t with
  | Sports => "Great choice! What kind of sports are you interested in?"
  | Reading => "Awesome! What kind of books do you like to read?"
  | Music => "Cool! What kind of music do you like to listen to?"
  | Art => "Awesome! Are you an artist?"
  end.

(** The steps of a topic, in the order the chain goes through them.  That
    the handlers of [bot.py] do follow these lists is [chain_step] below. *)
Definition chain (t : Topic) : list Continuation :=
  match t with
  | Sports => [K_handle_sports_type; K_handle_favorite_team; K_handle_current_season;
               K_handle_next_sport; K_handle_new_sport; K_handle_new_hobby]
  | Reading => [K_handle_book_type; K_handle_fav_book]
  | Music => [K_handle_fav_type; K_handle_fav_song]
  | Art => [K_handle_artist; K_handle_event_art]
  end.

(** The prompt of a step that does not depend on the message it answers. *)
Definition fixed_prompt (k : Continuation) : option string :=
  match k with
  | K_handle_sports_type => Some "Nice! What's your favorite team?"
  | K_handle_favorite_team =>
      Some "Great choice! What do you think of their current season so far?"
  | K_handle_current_season => Some "Do you think they can improve ?"
  | K_handle_next_sport => Some "What else sports you are interested in?"
  | K_handle_new_hobby => Some "Great to know!"
  | K_handle_book_type => Some "What is your favourite book?"
  | K_handle_fav_book => Some "Great to know"
  | K_handle_fav_type => Some "Amazing choice. What's your fav song?"
  | K_handle_fav_song => Some "Great choice!"
  | K_handle_artist => Some "Have you taken part in any art event?"
  | K_handle_event_art => Some "Great to know!"
  | K_handle_new_sport | K_get_min | K_set_reminder _ => None
  end.

(** The prompt a step of a topic chain answers a message with. *)
Definition prompt_of (k : Continuation) (m : Message) : string :=
  match fixed_prompt k with
  | Some prompt => prompt
  | None => "have you taken part in " ++ or_else (text m) "that sport" ++ "?"
  end.

(** The fixed-prompt steps of a topic: the steps of its chain whose prompt
    does not depend on the message. *)
Definition fixed_steps (t : Topic) : list Continuation :=
  List.filter (fun k => match fixed_prompt k with Some _ => true | None => false end)
    (chain t).

(** The world after a step replied [prompt] to [m] and registered [next],
    if any. *)
Definition stepped (m : Message) (prompt : string) (next : option Continuation) (w : World)
  : World :=
  let w1 := set_outbox (outbox w ++ [replied m prompt]) w in
  match next with
  | Some k =>
      set_next_serial (S (next_serial w))
        (set_registry (<[chat_id m := mkPending (next_serial w) k]>) w1)
  | None => w1
  end.

(** [needle] occurs in [hay]. *)
Definition embeds (needle hay : string) : Prop :=
  exists pre post, hay = pre ++ needle ++ post.

(** The same, decided. *)
Fixpoint contains (needle hay : string) : bool :=
  String.prefix needle hay ||
  match hay with
  | EmptyString => false
  | String _ hay' => contains needle hay'
  end.

(** The closing acknowledgments of the four chains. *)
Definition closing_acknowledgments : list string :=
  ["Great to know!"; "Great to know"; "Great choice!"].

(** A headline that the filter of [fetch_bbc_headlines] keeps. *)
Definition long_enough (h : string) : Prop := (5 <= Py.len h)%nat.

(** Serial numbers tell registrations apart: the invoked ones are pairwise
    distinct, every serial in use is below the next one to be given out, a
    pending registration has not been invoked, and two chats never hold the
    same registration. *)
Record serials_fresh (w : World) : Prop := {
  invoked_nodup : NoDup (invoked w);
  invoked_below : forall s, s ∈ invoked w -> (s < next_serial w)%nat;
  pending_below : forall c p, registry w !! c = Some p -> (serial p < next_serial w)%nat;
  pending_not_invoked : forall c p, registry w !! c = Some p -> serial p ∉ invoked w;
  pending_distinct : forall c1 c2 p1 p2,
    registry w !! c1 = Some p1 -> registry w !! c2 = Some p2 ->
    serial p1 = serial p2 -> c1 = c2
}.

(** A computation that keeps the serial numbers fresh. *)
Definition preserves {A} (m : M A) : Prop :=
  forall w, serials_fresh w -> serials_fresh (snd (m w)).

(** A computation that leaves the registry and its bookkeeping alone. *)
Definition frames {A} (m : M A) : Prop :=
  forall w,
    registry (snd (m w)) = registry w /\
    next_serial (snd (m w)) = next_serial w /\
    invoked (snd (m w)) = invoked w.

(** ** Vocabulary of the further properties *)

(** [w'] differs from [w] at most by what concerns chat [c]: messages and
    timers were added, all of them for [c], none was removed, and the
    pending continuation of every other chat is as it was. *)
Definition only_chat (c : Z) (w w' : World) : Prop :=
  (exists l, outbox w' = (outbox w ++ l)%list /\ Forall (fun o => out_chat o = c) l) /\
  (exists l, timers w' = (timers w ++ l)%list /\ Forall (fun t => t_chat t = c) l) /\
  (forall c', c' <> c -> registry w' !! c' = registry w !! c').

(** [w'] has the registry of [w]. *)
Definition registry_kept (w w' : World) : Prop :=
  registry w' = registry w /\ next_serial w' = next_serial w.

(** A computation whose final world is always related to its initial world
    by [R]. *)
Definition keeps (R : World -> World -> Prop) {A} (m : M A) : Prop :=
  forall w, R w (snd (m w)).

(** A computation that touches neither the outbox, nor the timers, nor the
    registry. *)
Definition inert {A} (m : M A) : Prop :=
  forall w,
    outbox (snd (m w)) = outbox w /\
    timers (snd (m w)) = timers w /\
    registry (snd (m w)) = registry w /\
    next_serial (snd (m w)) = next_serial w.

(** The text of the confirmation [set_reminder] sends. *)
Definition confirmation (minutes : Z) (reminder_text : option string) : string :=
  "Reminder set for " ++ str_of_int minutes ++ " minutes: " ++ format_opt reminder_text.

(** * Properties *)

(** ** Python values *)

Example int_30 (beyond : string -> Result Z) : Py.int beyond (Some "30") = Ok 30.
Proof. reflexivity. Qed.

Example int_neg5 (beyond : string -> Result Z) : Py.int beyond (Some "-5") = Ok (-5).
Proof. reflexivity. Qed.

Example int_padded (beyond : string -> Result Z) :
  Py.int beyond (Some "  +1_000 ") = Ok 1000.
Proof. reflexivity. Qed.

Example int_abc (beyond : string -> Result Z) :
  is_ValueError <$> (match Py.int beyond (Some "abc") with Raise e => Some e | _ => None end)
  = Some true.
Proof. reflexivity. Qed.

(** [int] skips the six ASCII blanks only: a file separator (character 28)
    before the digits makes the literal invalid. *)
Example int_file_separator (beyond : string -> Result Z) :
  Py.int beyond (Some (String (ascii_of_nat 28) "30"))
  = Raise (mkExc ValueError
             ("invalid literal for int() with base 10: " ++ String (ascii_of_nat 28) "30")).
Proof. reflexivity. Qed.

(** A string with a character outside ASCII, here a no-break space before
    the digits, is not plain: what [int] makes of it is the interpreter's
    answer. *)
Example int_no_break_space (beyond : string -> Result Z) :
  let nbsp30 := String (ascii_of_nat 194) (String (ascii_of_nat 160) "30") in
  Py.int beyond (Some nbsp30) = beyond nbsp30.
Proof. reflexivity. Qed.

(** [len] counts characters: the four of [café] take five bytes. *)
Example len_cafe : Py.len "café" = 4%nat /\ String.length "café" = 5%nat.
Proof. split; reflexivity. Qed.

Example str_of_int_30 : str_of_int 30 = "30" /\ str_of_int (-5) = "-5" /\ str_of_int 0 = "0".
Proof. repeat split. Qed.

(** ** Running the primitives *)

(** Unfold the field updates of a world. *)
Ltac world_simpl :=
  cbv [set_registry set_next_serial set_invoked set_outbox set_timers set_log
       set_clock set_faults set_bbc set_rand set_runtime
       registry next_serial invoked outbox timers log clock faults bbc rand runtime].

Lemma bind_ok {A B} (m : M A) (k : A -> M B) (w w' : World) (a : A) :
  m w = (Ok a, w') -> bind m k w = k a w'.
Proof. unfold bind. intros ->. reflexivity. Qed.

Lemma bind_raise {A B} (m : M A) (k : A -> M B) (w w' : World) (e : Exc) :
  m w = (Raise e, w') -> bind m k w = (Raise e, w').
Proof. unfold bind. intros ->. reflexivity. Qed.

Lemma try_except_ok {A} (body : M A) (catches : Exc -> bool) (handler : Exc -> M A)
      (w w' : World) (a : A) :
  body w = (Ok a, w') -> try_except body catches handler w = (Ok a, w').
Proof. unfold try_except. intros ->. reflexivity. Qed.

Lemma try_except_caught {A} (body : M A) (catches : Exc -> bool) (handler : Exc -> M A)
      (w w' : World) (e : Exc) :
  body w = (Raise e, w') -> catches e = true ->
  try_except body catches handler w = handler e w'.
Proof. unfold try_except. intros -> ->. reflexivity. Qed.

Lemma try_except_uncaught {A} (body : M A) (catches : Exc -> bool) (handler : Exc -> M A)
      (w w' : World) (e : Exc) :
  body w = (Raise e, w') -> catches e = false ->
  try_except body catches handler w = (Raise e, w').
Proof. unfold try_except. intros -> ->. reflexivity. Qed.

Lemma transport_send_ok (o : Outbound) (w : World) :
  faults w = [] -> transport_send o w = (Ok tt, set_outbox (outbox w ++ [o]) w).
Proof. unfold transport_send. intros ->. reflexivity. Qed.

Lemma send_message_ok (chat : Z) (txt : string) (w : World) :
  faults w = [] ->
  send_message chat txt w = (Ok chat, set_outbox (outbox w ++ [sent chat txt]) w).
Proof.
  intros H. unfold send_message.
  rewrite (bind_ok _ _ _ _ _ (transport_send_ok _ _ H)). reflexivity.
Qed.

Lemma send_message_fault (chat : Z) (txt : string) (w : World) (e : Exc)
      (rest : list (option Exc)) :
  faults w = Some e :: rest -> send_message chat txt w = (Raise e, set_faults rest w).
Proof.
  intros H. unfold send_message, bind, transport_send. rewrite H. reflexivity.
Qed.

Lemma reply_to_ok (m : Message) (txt : string) (markup : option (list string)) (w : World) :
  faults w = [] ->
  reply_to m txt markup w =
  (Ok tt, set_outbox (outbox w ++ [mkOutbound (chat_id m) txt (Some (message_id m)) markup]) w).
Proof. intros H. unfold reply_to. apply transport_send_ok, H. Qed.

Lemma set_registry_same (w : World) : set_registry (fun _ => registry w) w = w.
Proof. destruct w; reflexivity. Qed.

Lemma take_idle (chat : Z) (w : World) :
  registry w !! chat = None -> take_next_step_handler chat w = (Ok None, w).
Proof.
  intros H. unfold take_next_step_handler, Registry.take. rewrite H.
  rewrite delete_id by exact H. rewrite set_registry_same. reflexivity.
Qed.

Lemma take_pending (chat : Z) (p : Pending) (w : World) :
  registry w !! chat = Some p ->
  take_next_step_handler chat w = (Ok (Some p), set_registry (delete chat) w).
Proof.
  intros H. unfold take_next_step_handler, Registry.take. rewrite H. reflexivity.
Qed.

Lemma process_idle (m : Message) (w : World) :
  registry w !! chat_id m = None ->
  process_new_message m w =
  match command_of m with
  | Some handler => handler m w
  | None => handle_message m w
  end.
Proof.
  intros H. unfold process_new_message.
  rewrite (bind_ok _ _ _ _ _ (take_idle _ _ H)).
  destruct (command_of m); reflexivity.
Qed.

Lemma process_pending (m : Message) (p : Pending) (w : World) :
  registry w !! chat_id m = Some p ->
  process_new_message m w =
  run_continuation (cont p) m
    (set_invoked (serial p :: invoked w) (set_registry (delete (chat_id m)) w)).
Proof.
  intros H. unfold process_new_message.
  rewrite (bind_ok _ _ _ _ _ (take_pending _ _ _ H)). reflexivity.
Qed.

Lemma set_outbox_nil (w : World) : set_outbox (outbox w ++ []) w = w.
Proof. destruct w; simpl. rewrite app_nil_r. reflexivity. Qed.

Lemma set_outbox_app (w : World) (l1 l2 : list Outbound) :
  set_outbox (outbox (set_outbox (outbox w ++ l1) w) ++ l2) (set_outbox (outbox w ++ l1) w)
  = set_outbox (outbox w ++ l1 ++ l2) w.
Proof. destruct w; simpl. rewrite app_assoc. reflexivity. Qed.

Lemma send_each_ok (chat : Z) (items : list string) (w : World) :
  faults w = [] ->
  for_each items (fun item => send_message chat item >> ret tt) w
  = (Ok tt, set_outbox (outbox w ++ map (sent chat) items) w).
Proof.
  revert w. induction items as [|item items IH]; intros w H; simpl.
  - rewrite set_outbox_nil. reflexivity.
  - erewrite bind_ok; [|erewrite bind_ok; [reflexivity|apply send_message_ok, H]].
    rewrite IH by exact H. rewrite (set_outbox_app w [_]). reflexivity.
Qed.

(** ** The fallback handler *)

(** C9.  A message whose text is none of the four keywords of the keyboard
    is ignored by the fallback handler [handle_message]: it returns normally
    and leaves the world as it was, so nothing is sent and nothing is
    registered.  When no continuation is pending for the chat and the text
    is no command either, this is all the dispatcher does with the
    message. *)
Theorem handle_message_ignores_other_text (m : Message) (w : World) :
  (forall kw, kw ∈ keyboard_markup -> text m <> Some kw) ->
  handle_message m w = (Ok tt, w) /\
  (registry w !! chat_id m = None -> command_of m = None ->
   process_new_message m w = (Ok tt, w)).
Proof.
  intros Hkw.
  assert (Hh : handle_message m w = (Ok tt, w)).
  { unfold handle_message.
    assert (Hne : forall kw, kw ∈ keyboard_markup -> String.eqb (or_else (text m) "") kw = false).
    { intros kw Hin. apply String.eqb_neq. intros Heq.
      apply (Hkw kw Hin). unfold or_else in Heq.
      destruct (text m) as [s|].
      - destruct (String.eqb_spec s "") as [->|_]; [|congruence].
        subst kw. repeat (apply elem_of_cons in Hin as [Hin|Hin]; [discriminate|]).
        by apply elem_of_nil in Hin.
      - subst kw. repeat (apply elem_of_cons in Hin as [Hin|Hin]; [discriminate|]).
        by apply elem_of_nil in Hin. }
    rewrite !Hne; [reflexivity| unfold keyboard_markup; set_solver ..]. }
  split; [exact Hh|].
  intros Hidle Hcmd. rewrite process_idle by exact Hidle. rewrite Hcmd. exact Hh.
Qed.

Lemma handle_message_ignores_other_text_witness :
  let m := mkMessage 11 7 "private" (Some "hello there") in
  let w := initial_world (mkWeb (Ok "") (fun _ => Ok [])) in
  handle_message m w = (Ok tt, w) /\
  (registry w !! chat_id m = None -> command_of m = None ->
   process_new_message m w = (Ok tt, w)).
Proof.
  intros m w. apply (handle_message_ignores_other_text m w).
  intros kw Hin. unfold keyboard_markup in Hin.
  repeat (apply elem_of_cons in Hin as [->|Hin]; [discriminate|]).
  by apply elem_of_nil in Hin.
Defined.

(** ** Extra commands *)











(** ** The reminder flow *)

Arguments str_of_int : simpl never.
Arguments format_opt : simpl never.

Lemma get_name_ok (m : Message) (w : World) :
  faults w = [] ->
  get_name m w =
  (Ok tt,
   set_next_serial (S (next_serial w))
     (set_registry (<[chat_id m := mkPending (next_serial w) K_get_min]>)
        (set_outbox (outbox w ++ [sent (chat_id m) "What should I remind you about?"]) w))).
Proof.
  intros H. unfold get_name.
  erewrite bind_ok; [|apply send_message_ok, H]. reflexivity.
Qed.

Lemma get_min_ok (m : Message) (w : World) :
  faults w = [] ->
  get_min m w =
  (Ok tt,
   set_next_serial (S (next_serial w))
     (set_registry (<[chat_id m := mkPending (next_serial w) (K_set_reminder (text m))]>)
        (set_outbox
           (outbox w ++ [sent (chat_id m) "In how many minutes? (Please enter time in minutes)"])
           w))).
Proof.
  intros H. unfold get_min.
  erewrite bind_ok; [|apply send_message_ok, H]. reflexivity.
Qed.

Lemma py_int_run (x : option string) (w : World) : py_int x w = (int_of w x, w).
Proof. reflexivity. Qed.

(** The minutes step on a text that [int] turns into a positive number of
    minutes whose seconds [threading.Timer] can wait for. *)
Lemma set_reminder_schedules (m : Message) (reminder_text : option string) (w : World)
      (minutes : Z) :
  faults w = [] -> int_of w (text m) = Ok minutes -> 0 < minutes ->
  minutes * 60 <= TIMEOUT_MAX (runtime w) ->
  set_reminder m reminder_text w =
  (Ok tt,
   set_log (log w ++ [mkLog INFO ("Scheduled reminder for chat " ++ str_of_int (chat_id m)
                                  ++ " in " ++ str_of_int minutes ++ " minute(s)") None])
     (set_timers (timers w ++ [mkTimer (chat_id m) reminder_text (minutes * 60) (clock w)])
        (set_outbox
           (outbox w ++ [sent (chat_id m)
                           ("Reminder set for " ++ str_of_int minutes ++ " minutes: "
                            ++ format_opt reminder_text)])
           w))).
Proof.
  intros H Hint Hpos Hmax. unfold set_reminder.
  apply try_except_ok.
  erewrite bind_ok; [|rewrite py_int_run, Hint; reflexivity].
  destruct (Z.leb_spec minutes 0) as [Hle|_]; [lia|].
  erewrite bind_ok; [|apply send_message_ok, H].
  unfold schedule_reminder, bind, timer_start. cbn [runtime set_outbox].
  destruct (Z.leb_spec (minutes * 60) (TIMEOUT_MAX (runtime w))) as [_|Hgt]; [|lia].
  reflexivity.
Qed.

(** The minutes step on a text that [int] refuses with a [ValueError], or
    turns into an integer that is not positive: one error reply, nothing
    else. *)
Lemma set_reminder_rejects (m : Message) (reminder_text : option string) (w : World) :
  faults w = [] ->
  ((exists e, int_of w (text m) = Raise e /\ is_ValueError e = true) \/
   (exists n, int_of w (text m) = Ok n /\ n <= 0)) ->
  exists err,
    (err = invalid_minutes \/ err = please_positive) /\
    set_reminder m reminder_text w = (Ok tt, set_outbox (outbox w ++ [replied m err]) w).
Proof.
  intros H [(e & Hint & He)|(n & Hint & Hle)]; unfold set_reminder.
  - exists invalid_minutes. split; [by left|].
    erewrite try_except_caught; [|apply bind_raise; rewrite py_int_run, Hint; reflexivity
                                 |exact He].
    apply reply_to_ok, H.
  - exists please_positive. split; [by right|].
    apply try_except_ok.
    erewrite bind_ok; [|rewrite py_int_run, Hint; reflexivity].
    destruct (Z.leb_spec n 0) as [_|Hgt]; [|lia].
    rewrite reply_to_ok by exact H. reflexivity.
Qed.

(** The minutes step on a message that carries no text: [int(None)] raises
    [TypeError], which [except ValueError] lets through. *)
Lemma set_reminder_no_text (m : Message) (reminder_text : option string) (w : World) :
  text m = None ->
  exists e, exc_class e = TypeError /\ set_reminder m reminder_text w = (Raise e, w).
Proof.
  intros Htext. unfold set_reminder.
  eexists. split; [|erewrite try_except_uncaught;
                     [reflexivity
                     |apply bind_raise; rewrite py_int_run; unfold int_of; rewrite Htext;
                      reflexivity
                     |reflexivity]].
  reflexivity.
Qed.

(** The minutes step as the dispatcher runs it, on a text that [int]
    refuses or turns into an integer that is not positive: one error reply
    to the chat, no timer, no confirmation, nothing left pending for the
    chat. *)
Lemma minutes_step_rejects (c : Z) (m : Message) (reminder_text : option string)
      (w : World) :
  chat_id m = c -> faults w = [] ->
  cont <$> (registry w !! c) = Some (K_set_reminder reminder_text) ->
  ((exists e, int_of w (text m) = Raise e /\ is_ValueError e = true) \/
   (exists n, int_of w (text m) = Ok n /\ n <= 0)) ->
  exists err w',
    (err = invalid_minutes \/ err = please_positive) /\
    process_new_message m w = (Ok tt, w') /\
    outbox w' = (outbox w ++ [replied m err])%list /\
    timers w' = timers w /\
    registry w' !! c = None.
Proof.
  intros Hc Hup Hreg Hbad.
  destruct (registry w !! c) as [p|] eqn:Hp; [|discriminate Hreg].
  simpl in Hreg. injection Hreg as Hcont.
  destruct (set_reminder_rejects m reminder_text
              (set_invoked (serial p :: invoked w) (set_registry (delete (chat_id m)) w))
              Hup Hbad) as (err & Herr & Hrun).
  exists err. eexists. split; [exact Herr|]. split.
  - rewrite (process_pending m p w) by (rewrite Hc; exact Hp). rewrite Hcont. exact Hrun.
  - simpl. repeat split. rewrite Hc. apply lookup_delete_eq.
Qed.

Example minutes_step_rejects_abc_and_minus_five (w : World) :
  is_ValueError <$> (match int_of w (Some "abc") with Raise e => Some e | _ => None end)
  = Some true /\
  int_of w (Some "-5") = Ok (-5).
Proof. split; reflexivity. Qed.

Lemma command_alert (m : Message) : text m = Some "/alert" -> command_of m = Some get_name.
Proof. intros H. unfold command_of. rewrite H. reflexivity. Qed.

Lemma send_ok (chat : Z) (txt : option string) (w : World) :
  faults w = [] ->
  send chat txt w
  = (Ok tt, set_outbox (outbox w ++ [sent chat ("Reminder: " ++ format_opt txt)]) w).
Proof.
  intros H. unfold send, try_except.
  erewrite bind_ok; [reflexivity|apply send_message_ok, H].
Qed.

Lemma send_swallows (chat : Z) (txt : option string) (w : World) (e : Exc)
      (rest : list (option Exc)) :
  faults w = Some e :: rest ->
  send chat txt w
  = (Ok tt,
     set_log (log w ++ [mkLog ERROR ("Failed to send reminder to " ++ str_of_int chat) (Some e)])
       (set_faults rest w)).
Proof.
  intros H. unfold send, try_except.
  erewrite bind_raise; [|apply send_message_fault, H]. reflexivity.
Qed.

Lemma fire_due (i : nat) (t : Timer) (w : World) :
  timers w !! i = Some t -> due t w = true ->
  fire i w = send (t_chat t) (t_text t) (set_timers (delete i (timers w)) w).
Proof. intros Hi Hdue. unfold fire. rewrite Hi, Hdue. reflexivity. Qed.

(** The world after the three messages of the reminder flow, with time
    passing between them. *)
Lemma reminder_flow_world (c : Z) (m1 m2 m3 : Message) (w : World) (d1 d2 : N)
      (minutes : Z) :
  chat_id m1 = c -> chat_id m2 = c -> chat_id m3 = c ->
  text m1 = Some "/alert" -> int_of w (text m3) = Ok minutes -> 0 < minutes ->
  minutes * 60 <= TIMEOUT_MAX (runtime w) ->
  registry w !! c = None -> faults w = [] ->
  run [Inbound m1; Elapse d1; Inbound m2; Elapse d2; Inbound m3] w =
  set_log (log w ++ [mkLog INFO ("Scheduled reminder for chat " ++ str_of_int c
                                 ++ " in " ++ str_of_int minutes ++ " minute(s)") None])
    (set_timers (timers w ++ [mkTimer c (text m2) (minutes * 60)
                                (clock w + Z.of_N d1 + Z.of_N d2)])
       (set_outbox
          (outbox w ++ [sent c "What should I remind you about?";
                        sent c "In how many minutes? (Please enter time in minutes)";
                        sent c ("Reminder set for " ++ str_of_int minutes ++ " minutes: "
                                ++ format_opt (text m2))])
          (set_clock (clock w + Z.of_N d1 + Z.of_N d2)
             (set_invoked (S (next_serial w) :: next_serial w :: invoked w)
                (set_next_serial (S (S (next_serial w))) w))))).
Proof.
  intros Hc1 Hc2 Hc3 Ht1 Hint Hpos Hmax Hidle Hup.
  unfold run. simpl foldl. unfold step.
  rewrite (process_idle m1 w) by (rewrite Hc1; exact Hidle).
  rewrite (command_alert m1 Ht1), get_name_ok by exact Hup. simpl snd.
  erewrite (process_pending m2); [|simpl; rewrite Hc2, <- Hc1; apply lookup_insert_eq].
  simpl cont. simpl run_continuation. rewrite get_min_ok by exact Hup. simpl snd.
  erewrite (process_pending m3); [|simpl; rewrite Hc3, <- Hc2; apply lookup_insert_eq].
  simpl cont. simpl run_continuation.
  rewrite (set_reminder_schedules m3 _ _ minutes); [|exact Hup|exact Hint|exact Hpos|exact Hmax].
  simpl snd. rewrite Hc1, Hc2, Hc3.
  destruct w as [r n inv out tm lg ck fs b rd rt]. world_simpl. simpl in Hidle. f_equal.
  - rewrite !delete_insert_eq, !(delete_id r c Hidle). reflexivity.
  - rewrite <- !app_assoc. reflexivity.
Qed.

(** The last timer started, once its interval has elapsed, fires: its
    message is sent and it is gone. *)
Lemma last_timer_fires (w : World) (before : list Timer) (t : Timer) (seconds : N) :
  faults w = [] -> timers w = (before ++ [t])%list -> t_started t = clock w ->
  t_interval t <= Z.of_N seconds ->
  outbox (run [Elapse seconds; Fire (length before)] w)
  = (outbox w ++ [sent (t_chat t) ("Reminder: " ++ format_opt (t_text t))])%list /\
  timers (run [Elapse seconds; Fire (length before)] w) = before.
Proof.
  intros Hup Htimers Hstart Hs. unfold run. simpl foldl. unfold step. simpl snd.
  erewrite fire_due; [|simpl; rewrite Htimers; apply list_lookup_middle; reflexivity
                      |unfold due; simpl; apply Z.leb_le; lia].
  rewrite send_ok by exact Hup. simpl. rewrite Htimers, delete_middle, app_nil_r.
  split; reflexivity.
Qed.

(** C2.  A chat with no pending continuation sends [/alert], then
    [buy milk], then [30]; time passes between the messages, the transport
    accepts the sends and the platform can wait 1800 seconds.  Then exactly
    one timer has been started, for that chat, with body [buy milk] and
    interval [30 * 60] seconds counted from the clock at the third message,
    the one that makes the scheduling call, not from the earlier ones;
    nothing is left pending for the chat; the timer is due exactly when
    [30 * 60] seconds have elapsed since then; and when it fires, the one
    message sent is [Reminder: buy milk] to that chat, and the timer is
    gone. *)
Theorem reminder_happy_path (c : Z) (m1 m2 m3 : Message) (w : World) (d1 d2 : N) :
  chat_id m1 = c -> chat_id m2 = c -> chat_id m3 = c ->
  text m1 = Some "/alert" -> text m2 = Some "buy milk" -> text m3 = Some "30" ->
  registry w !! c = None -> faults w = [] ->
  30 * 60 <= TIMEOUT_MAX (runtime w) ->
  let w' := run [Inbound m1; Elapse d1; Inbound m2; Elapse d2; Inbound m3] w in
  let at_third := clock w + Z.of_N d1 + Z.of_N d2 in
  let task := mkTimer c (Some "buy milk") (30 * 60) at_third in
  clock w' = at_third /\
  timers w' = (timers w ++ [task])%list /\
  registry w' !! c = None /\
  (forall seconds, due task (run [Elapse seconds] w') = true <-> 30 * 60 <= Z.of_N seconds) /\
  (forall seconds, 30 * 60 <= Z.of_N seconds ->
     let w'' := run [Elapse seconds; Fire (length (timers w))] w' in
     outbox w'' = (outbox w' ++ [sent c "Reminder: buy milk"])%list /\
     timers w'' = timers w).
Proof.
  intros Hc1 Hc2 Hc3 Ht1 Ht2 Ht3 Hidle Hup Hmax w' at_third task.
  assert (Hint : int_of w (text m3) = Ok 30) by (rewrite Ht3; reflexivity).
  pose proof (reminder_flow_world c m1 m2 m3 w d1 d2 30 Hc1 Hc2 Hc3 Ht1 Hint
                ltac:(lia) Hmax Hidle Hup) as Hw'.
  fold w' in Hw'. rewrite Ht2 in Hw'. clearbody w'. subst w'.
  split; [reflexivity|]. split; [reflexivity|]. split; [exact Hidle|]. split.
  - intros seconds. unfold due. simpl. subst at_third. rewrite Z.leb_le. lia.
  - intros seconds Hs w''. subst w''.
    apply (last_timer_fires _ (timers w) task seconds); [exact Hup|reflexivity|reflexivity|exact Hs].
Qed.

Lemma reminder_happy_path_witness :
  let w := initial_world (mkWeb (Ok "") (fun _ => Ok [])) in
  let w' := run [Inbound (mkMessage 1 7 "private" (Some "/alert")); Elapse 40;
                 Inbound (mkMessage 2 7 "private" (Some "buy milk")); Elapse 20;
                 Inbound (mkMessage 3 7 "private" (Some "30"))] w in
  timers w' = [mkTimer 7 (Some "buy milk") 1800 60] /\
  (due (mkTimer 7 (Some "buy milk") 1800 60) (run [Elapse 1799] w') = true <-> 1800 <= 1799) /\
  outbox (run [Elapse 1800; Fire 0] w')
  = (outbox w' ++ [sent 7 "Reminder: buy milk"])%list.
Proof.
  intros w w'.
  pose proof (reminder_happy_path 7
                (mkMessage 1 7 "private" (Some "/alert"))
                (mkMessage 2 7 "private" (Some "buy milk"))
                (mkMessage 3 7 "private" (Some "30")) w 40 20
                eq_refl eq_refl eq_refl eq_refl eq_refl eq_refl eq_refl eq_refl
                ltac:(simpl; lia))
    as (_ & Htimers & _ & Hdue & Hfire).
  split; [exact Htimers|]. split; [exact (Hdue 1799%N)|].
  apply (Hfire 1800%N). simpl. lia.
Defined.

(** C3, the input on which [set_reminder] departs from it.  A chat has
    answered the first prompt of the reminder flow and then sends a message
    that carries no text.  [int(None)] raises [TypeError], which the
    [except ValueError] clause does not catch: the exception leaves the
    handler and no error reply is sent. *)
Theorem set_reminder_textless_message_raises :
  let w :=
    run [Inbound (mkMessage 1 7 "private" (Some "/alert"));
         Inbound (mkMessage 2 7 "private" (Some "buy milk"))]
        (initial_world (mkWeb (Ok "") (fun _ => Ok []))) in
  cont <$> (registry w !! 7) = Some (K_set_reminder (Some "buy milk")) /\
  exists e w',
    step (Inbound (mkMessage 3 7 "private" None)) w = (Raise e, w') /\
    exc_class e = TypeError /\
    outbox w' = outbox w /\
    timers w' = [].
Proof.
  intros w. split; [reflexivity|].
  eexists. eexists. split; [vm_compute; reflexivity|]. repeat split.
Qed.

(** ** Firing a reminder *)

(** Firing never raises, whatever the transport does. *)
Lemma fire_never_raises (i : nat) (w : World) : fst (fire i w) = Ok tt.
Proof.
  unfold fire. destruct (timers w !! i) as [t|]; [|reflexivity].
  destruct (due t w); [|reflexivity].
  unfold send, try_except, send_message, bind, transport_send.
  simpl. destruct (faults w) as [|[e|] rest]; reflexivity.
Qed.

(** C8.  A due timer fires while the transport raises on the send.  The
    callback returns normally; the failure is logged, with the exception,
    as one [ERROR] record; nothing is sent; the timer is removed from the
    started timers and no timer is added; no continuation is registered. *)
Theorem reminder_send_failure_swallowed (i : nat) (t : Timer) (w : World) (e : Exc)
        (rest : list (option Exc)) :
  timers w !! i = Some t -> due t w = true -> faults w = Some e :: rest ->
  exists w',
    fire i w = (Ok tt, w') /\
    log w' = (log w ++ [mkLog ERROR ("Failed to send reminder to " ++ str_of_int (t_chat t))
                         (Some e)])%list /\
    outbox w' = outbox w /\
    timers w' = delete i (timers w) /\
    length (timers w') = pred (length (timers w)) /\
    registry w' = registry w.
Proof.
  intros Hi Hdue Hfault. eexists. split.
  - rewrite (fire_due i t w Hi Hdue). apply send_swallows. exact Hfault.
  - simpl. repeat split. rewrite length_delete by (rewrite Hi; eauto). lia.
Qed.

Lemma reminder_send_failure_swallowed_witness :
  let boom := mkExc OtherException "ApiTelegramException: bot was blocked by the user" in
  let w := set_faults [Some boom]
             (set_clock 60 (set_timers [mkTimer 7 (Some "tea") 60 0]
                (initial_world (mkWeb (Ok "") (fun _ => Ok []))))) in
  exists w', fire 0 w = (Ok tt, w') /\ outbox w' = [] /\ timers w' = [].
Proof.
  intros boom w.
  destruct (reminder_send_failure_swallowed 0 (mkTimer 7 (Some "tea") 60 0) w boom []
              eq_refl eq_refl eq_refl) as (w' & Hfire & _ & Hout & Htimers & _).
  exists w'. repeat split; assumption.
Defined.

(** ** The topic chains *)

Lemma append_cons (a : ascii) (s t : string) : String a s ++ t = String a (s ++ t).
Proof. reflexivity. Qed.

Lemma prefix_app (needle hay : string) :
  String.prefix needle hay = true <-> exists post, hay = needle ++ post.
Proof.
  revert hay. induction needle as [|a needle IH]; intros hay; simpl.
  - split; [intros _; exists hay; reflexivity|intros _; destruct hay; reflexivity].
  - destruct hay as [|b hay].
    + split; [discriminate|intros [post Hpost]; discriminate].
    + simpl. destruct (Ascii.ascii_dec a b) as [->|Hne].
      * rewrite IH. split; intros [post Hpost]; exists post.
        -- rewrite append_cons, Hpost. reflexivity.
        -- rewrite append_cons in Hpost. congruence.
      * split; [discriminate|]. intros [post Hpost]. rewrite append_cons in Hpost. congruence.
Qed.

Lemma contains_embeds (needle hay : string) :
  contains needle hay = true <-> embeds needle hay.
Proof.
  unfold embeds. induction hay as [|b hay IH]; cbn [contains].
  - rewrite orb_false_r, prefix_app. split.
    + intros [post Hpost]. exists "", post. exact Hpost.
    + intros (pre & post & Heq). destruct pre; [exists post; exact Heq|discriminate].
  - rewrite orb_true_iff, prefix_app, IH. split.
    + intros [[post Hpost]|(pre & post & Heq)].
      * exists "", post. exact Hpost.
      * exists (String b pre), post. rewrite append_cons, Heq. reflexivity.
    + intros (pre & post & Heq). destruct pre as [|a pre].
      * left. exists post. exact Heq.
      * right. exists pre, post. rewrite append_cons in Heq. congruence.
Qed.

Lemma handle_message_keyword (t : Topic) (m : Message) (w : World) :
  faults w = [] -> text m = Some (keyword t) ->
  handle_message m w = (Ok tt, stepped m (opening_prompt t) (head (chain t)) w).
Proof.
  intros H Htext. unfold handle_message. rewrite Htext.
  destruct t; simpl;
    (erewrite bind_ok; [|apply reply_to_ok, H]); reflexivity.
Qed.

(** Each step of a chain replies with its prompt and registers the step
    that follows it in the chain, if there is one. *)
Lemma chain_step (t : Topic) (i : nat) (k : Continuation) (m : Message) (w : World) :
  chain t !! i = Some k -> faults w = [] ->
  run_continuation k m w = (Ok tt, stepped m (prompt_of k m) (chain t !! S i) w).
Proof.
  intros Hk H.
  destruct t; simpl in Hk;
    repeat (destruct i as [|i]; simpl in Hk; [injection Hk as <-|]); try discriminate Hk;
    simpl; unfold handle_sports_type, handle_favorite_team, handle_current_season,
      handle_next_sport, handle_new_sport, handle_new_hobby, handle_book_type,
      handle_fav_book, handle_fav_type, handle_fav_song, handle_artist, handle_event_art;
    try (erewrite bind_ok; [|apply reply_to_ok, H]; reflexivity);
    apply reply_to_ok, H.
Qed.

Lemma command_of_keyword (t : Topic) (m : Message) :
  text m = Some (keyword t) -> command_of m = None.
Proof. intros H. unfold command_of. rewrite H. destruct t; reflexivity. Qed.

(** What dispatching a message does to a chat that is at step [i] of the
    chain of [t]. *)
Lemma chain_dispatch (t : Topic) (i : nat) (k : Continuation) (c : Z) (m : Message)
      (w : World) :
  chain t !! i = Some k -> chat_id m = c ->
  faults w = [] -> cont <$> (registry w !! c) = Some k ->
  exists w',
    process_new_message m w = (Ok tt, w') /\
    outbox w' = (outbox w ++ [replied m (prompt_of k m)])%list /\
    faults w' = [] /\
    timers w' = timers w /\
    cont <$> (registry w' !! c) = chain t !! S i /\
    (forall c', c' <> c -> registry w' !! c' = registry w !! c').
Proof.
  intros Hk Hc H Hreg.
  destruct (registry w !! c) as [p|] eqn:Hp; [|discriminate Hreg].
  simpl in Hreg. injection Hreg as Hcont.
  eexists. split.
  - rewrite (process_pending m p w) by (rewrite Hc; exact Hp).
    rewrite Hcont. apply (chain_step t i k m _ Hk). exact H.
  - unfold stepped. rewrite Hc.
    destruct (chain t !! S i) as [k'|]; simpl; repeat split; try assumption.
    + rewrite lookup_insert_eq. reflexivity.
    + intros c' Hne. rewrite lookup_insert_ne, lookup_delete_ne by congruence. reflexivity.
    + rewrite lookup_delete_eq. reflexivity.
    + intros c' Hne. rewrite lookup_delete_ne by congruence. reflexivity.
Qed.

Lemma keyword_dispatch (t : Topic) (c : Z) (m : Message) (w : World) :
  chat_id m = c -> text m = Some (keyword t) ->
  faults w = [] -> registry w !! c = None ->
  exists w',
    process_new_message m w = (Ok tt, w') /\
    outbox w' = (outbox w ++ [replied m (opening_prompt t)])%list /\
    faults w' = [] /\
    timers w' = timers w /\
    cont <$> (registry w' !! c) = chain t !! 0%nat /\
    (forall c', c' <> c -> registry w' !! c' = registry w !! c').
Proof.
  intros Hc Htext H Hidle. eexists. split.
  - rewrite process_idle by (rewrite Hc; exact Hidle).
    rewrite (command_of_keyword t m Htext). apply (handle_message_keyword t); assumption.
  - unfold stepped. rewrite Hc.
    destruct t; simpl; repeat split; try assumption;
      try (rewrite lookup_insert_eq; reflexivity);
      intros c' Hne; rewrite lookup_insert_ne by congruence; reflexivity.
Qed.

Lemma or_else_nonempty (s d : string) : s <> "" -> or_else (Some s) d = s.
Proof. intros Hs. unfold or_else. apply String.eqb_neq in Hs. rewrite Hs. reflexivity. Qed.

(** C4, as the code has it.  A chat with no pending continuation selects
    [Sports] and answers the prompts; the transport accepts the sends.  The
    reply that is interpolated is the fifth one, the answer to
    [What else sports you are interested in?]: whatever non-empty text [s]
    it is, the next prompt is [have you taken part in s?], which embeds
    [s].  The four prompts before it are fixed. *)
Theorem sports_chain_embeds_new_sport (c : Z) (m0 m1 m2 m3 m4 m5 : Message) (s : string)
        (w : World) :
  chat_id m0 = c -> chat_id m1 = c -> chat_id m2 = c ->
  chat_id m3 = c -> chat_id m4 = c -> chat_id m5 = c ->
  text m0 = Some "Sports" -> text m5 = Some s -> s <> "" ->
  registry w !! c = None -> faults w = [] ->
  let w' := run (map Inbound [m0; m1; m2; m3; m4; m5]) w in
  outbox w' =
  (outbox w ++
   [replied m0 "Great choice! What kind of sports are you interested in?";
    replied m1 "Nice! What's your favorite team?";
    replied m2 "Great choice! What do you think of their current season so far?";
    replied m3 "Do you think they can improve ?";
    replied m4 "What else sports you are interested in?";
    replied m5 ("have you taken part in " ++ s ++ "?")])%list /\
  embeds s ("have you taken part in " ++ s ++ "?").
Proof.
  intros Hc0 Hc1 Hc2 Hc3 Hc4 Hc5 Ht0 Ht5 Hs Hidle Hup w'.
  split; [|exists "have you taken part in ", "?"; reflexivity].
  subst w'. unfold run. simpl foldl. unfold step.
  destruct (keyword_dispatch Sports c m0 w Hc0 Ht0 Hup Hidle)
    as (w1 & E1 & O1 & F1 & _ & R1 & _).
  rewrite E1. simpl snd.
  destruct (chain_dispatch Sports 0 _ c m1 w1 eq_refl Hc1 F1 R1)
    as (w2 & E2 & O2 & F2 & _ & R2 & _).
  rewrite E2. simpl snd.
  destruct (chain_dispatch Sports 1 _ c m2 w2 eq_refl Hc2 F2 R2)
    as (w3 & E3 & O3 & F3 & _ & R3 & _).
  rewrite E3. simpl snd.
  destruct (chain_dispatch Sports 2 _ c m3 w3 eq_refl Hc3 F3 R3)
    as (w4 & E4 & O4 & F4 & _ & R4 & _).
  rewrite E4. simpl snd.
  destruct (chain_dispatch Sports 3 _ c m4 w4 eq_refl Hc4 F4 R4)
    as (w5 & E5 & O5 & F5 & _ & R5 & _).
  rewrite E5. simpl snd.
  destruct (chain_dispatch Sports 4 _ c m5 w5 eq_refl Hc5 F5 R5)
    as (w6 & E6 & O6 & _).
  rewrite E6. simpl snd.
  rewrite O6, O5, O4, O3, O2, O1. rewrite <- !app_assoc. simpl.
  unfold prompt_of. simpl. rewrite Ht5, (or_else_nonempty s _ Hs). reflexivity.
Qed.

Lemma sports_chain_embeds_new_sport_witness :
  let say i txt := mkMessage i 7 "private" (Some txt) in
  let w' := run (map Inbound [say 0 "Sports"; say 1 "Football"; say 2 "Ajax"; say 3 "fine";
                              say 4 "yes"; say 5 "Baseball"])
                (initial_world (mkWeb (Ok "") (fun _ => Ok []))) in
  out_text <$> last (outbox w') = Some "have you taken part in Baseball?" /\
  embeds "Baseball" "have you taken part in Baseball?".
Proof.
  intros say w'.
  destruct (sports_chain_embeds_new_sport 7
              (say 0 "Sports") (say 1 "Football") (say 2 "Ajax") (say 3 "fine")
              (say 4 "yes") (say 5 "Baseball") "Baseball"
              (initial_world (mkWeb (Ok "") (fun _ => Ok [])))
              eq_refl eq_refl eq_refl eq_refl eq_refl eq_refl eq_refl eq_refl
              ltac:(discriminate) eq_refl eq_refl) as [Hout Hemb].
  split; [|exact Hemb].
  fold w' in Hout. rewrite Hout. reflexivity.
Defined.

(** C4, as stated, fails: the reply [Baseball] to the prompt that asks what
    kind of sports the user is interested in is answered with the fixed
    prompt of [handle_sports_type], in which [Baseball] does not occur. *)
Lemma sports_first_reply_not_embedded :
  let m0 := mkMessage 0 7 "private" (Some "Sports") in
  let m1 := mkMessage 1 7 "private" (Some "Baseball") in
  let w' := run [Inbound m0; Inbound m1] (initial_world (mkWeb (Ok "") (fun _ => Ok []))) in
  outbox w' = [replied m0 "Great choice! What kind of sports are you interested in?";
               replied m1 "Nice! What's your favorite team?"] /\
  ~ embeds "Baseball" "Nice! What's your favorite team?".
Proof.
  intros m0 m1 w'. split; [reflexivity|].
  intros Hemb. apply contains_embeds in Hemb. discriminate Hemb.
Qed.

(** C5.  For each of the four topics: the chain has at least 2 and at most
    5 fixed-prompt steps, and these are all its steps but for
    [handle_new_sport] in the Sports chain, whose prompt does change with
    the message; the keyword starts the chain, registering its first step;
    dispatching a message to a chat that is at a step of the chain sends
    one reply, the prompt of that step, and leaves pending for the chat
    exactly the step that follows in the chain, nothing after the last
    one, and leaves the other chats as they were; the prompt of a
    fixed-prompt step is the same for every message; the last step replies
    with a closing acknowledgment. *)
Theorem topic_chains_linear (t : Topic) :
  (2 <= length (fixed_steps t) <= 5)%nat /\
  (forall k, k ∈ chain t -> k ∈ fixed_steps t \/ (t = Sports /\ k = K_handle_new_sport)) /\
  (forall c m w,
     chat_id m = c -> text m = Some (keyword t) ->
     faults w = [] -> registry w !! c = None ->
     exists w',
       process_new_message m w = (Ok tt, w') /\
       outbox w' = (outbox w ++ [replied m (opening_prompt t)])%list /\
       cont <$> (registry w' !! c) = chain t !! 0%nat) /\
  (forall i k c m w,
     chain t !! i = Some k -> chat_id m = c ->
     faults w = [] -> cont <$> (registry w !! c) = Some k ->
     exists w',
       process_new_message m w = (Ok tt, w') /\
       outbox w' = (outbox w ++ [replied m (prompt_of k m)])%list /\
       cont <$> (registry w' !! c) = chain t !! S i /\
       (forall c', c' <> c -> registry w' !! c' = registry w !! c')) /\
  (forall k, k ∈ fixed_steps t -> exists prompt, forall m, prompt_of k m = prompt) /\
  (exists m m', prompt_of K_handle_new_sport m <> prompt_of K_handle_new_sport m') /\
  (exists k prompt,
     last (chain t) = Some k /\ fixed_prompt k = Some prompt /\
     prompt ∈ closing_acknowledgments).
Proof.
  split; [destruct t; simpl; lia|].
  split.
  { intros k Hin. destruct t; simpl in Hin;
      repeat (apply elem_of_cons in Hin as [->|Hin];
              [first [left; unfold fixed_steps; simpl; set_solver | right; split; reflexivity]|]);
      by apply elem_of_nil in Hin. }
  split.
  { intros c m w Hc Htext Hup Hidle.
    destruct (keyword_dispatch t c m w Hc Htext Hup Hidle) as (w' & E & O & _ & _ & R & _).
    exists w'. auto. }
  split.
  { intros i k c m w Hk Hc Hup Hreg.
    destruct (chain_dispatch t i k c m w Hk Hc Hup Hreg) as (w' & E & O & _ & _ & R & Hother).
    exists w'. auto. }
  split.
  { intros k Hin. unfold prompt_of.
    apply list_elem_of_In, filter_In in Hin as [_ Hfixed].
    destruct (fixed_prompt k) as [prompt|]; [exists prompt; reflexivity|discriminate Hfixed]. }
  split.
  { exists (mkMessage 0 0 "private" (Some "Baseball")), (mkMessage 0 0 "private" (Some "Chess")).
    discriminate. }
  destruct t; simpl; eexists; eexists; (split; [reflexivity|split; [reflexivity|]]);
    unfold closing_acknowledgments; set_solver.
Qed.

Lemma topic_chains_linear_witness :
  let m := mkMessage 4 7 "private" (Some "Dune") in
  let w := run [Inbound (mkMessage 1 7 "private" (Some "Reading"));
                Inbound (mkMessage 2 7 "private" (Some "novels"))]
               (initial_world (mkWeb (Ok "") (fun _ => Ok []))) in
  exists w',
    process_new_message m w = (Ok tt, w') /\
    outbox w' = (outbox w ++ [replied m "Great to know"])%list /\
    registry w' !! 7 = None.
Proof.
  intros m w.
  destruct (topic_chains_linear Reading) as (_ & _ & _ & Hstep & _).
  destruct (Hstep 1%nat K_handle_fav_book 7 m w eq_refl eq_refl eq_refl eq_refl)
    as (w' & E & O & R & _).
  exists w'. split; [exact E|]. split; [exact O|].
  destruct (registry w' !! 7); [discriminate R|reflexivity].
Defined.

(** ** Fetching the headlines *)

Lemma existsb_eqb_false (h : string) (l : list string) :
  existsb (String.eqb h) l = false -> h ∉ l.
Proof.
  induction l as [|x l IH]; simpl; intros Hex Hin.
  - by apply elem_of_nil in Hin.
  - apply orb_false_iff in Hex as [Hx Hl].
    apply elem_of_cons in Hin as [->|Hin]; [|exact (IH Hl Hin)].
    rewrite String.eqb_refl in Hx. discriminate Hx.
Qed.

(** The loop keeps [cleaned] free of duplicates and of short strings, and
    adds to it only while it is empty or shorter than [limit]. *)
Lemma clean_loop_spec (limit : Z) (headlines cleaned : list string) :
  NoDup cleaned -> Forall long_enough cleaned ->
  (cleaned = [] \/ Z.of_nat (length cleaned) < limit) ->
  NoDup (clean_loop limit headlines cleaned) /\
  Forall long_enough (clean_loop limit headlines cleaned) /\
  Z.of_nat (length (clean_loop limit headlines cleaned)) <= Z.max limit 1.
Proof.
  revert cleaned. induction headlines as [|h rest IH]; intros cleaned Hnd Hlong Hroom; simpl.
  - repeat split; try assumption. destruct Hroom as [->|Hlt]; simpl; lia.
  - destruct (Nat.ltb_spec (Py.len h) 5) as [Hshort|Hlen]; [apply IH; assumption|].
    destruct (existsb (String.eqb h) cleaned) eqn:Hdup; [apply IH; assumption|].
    assert (Hnd' : NoDup (cleaned ++ [h])).
    { apply NoDup_app. repeat split; [exact Hnd| |apply NoDup_singleton].
      intros x Hx Hxh. apply list_elem_of_singleton in Hxh as ->.
      exact (existsb_eqb_false _ _ Hdup Hx). }
    assert (Hlong' : Forall long_enough (cleaned ++ [h])).
    { apply Forall_app. split; [exact Hlong|]. constructor; [exact Hlen|constructor]. }
    assert (Hlen' : Z.of_nat (length (cleaned ++ [h])) <= Z.max limit 1).
    { rewrite length_app. simpl. destruct Hroom as [->|Hlt]; simpl; lia. }
    destruct (Z.geb_spec (Z.of_nat (length (cleaned ++ [h]))) limit) as [Hfull|Hroom'].
    + repeat split; assumption.
    + apply IH; try assumption. right. lia.
Qed.

Lemma fetched_page {A} (w : World) (page : string) (catches : Exc -> bool)
      (handler : Exc -> M (string + A)) :
  http_get (bbc w) = Ok page ->
  try_except (let* page := requests_get in ret (inl page)) catches handler w
  = (Ok (inl page), w).
Proof.
  intros Hget. apply try_except_ok.
  erewrite bind_ok; [|unfold requests_get; rewrite Hget; reflexivity]. reflexivity.
Qed.

Lemma fetch_bbc_headlines_fetch_fails (limit : Z) (w : World) (e : Exc) :
  http_get (bbc w) = Raise e ->
  fetch_bbc_headlines limit w
  = (Ok ["Could not fetch news: " ++ exc_str e],
     set_log (log w ++ [mkLog WARNING ("Failed to fetch BBC headlines: " ++ exc_str e) None]) w).
Proof.
  intros Hget. unfold fetch_bbc_headlines.
  erewrite bind_ok; [|].
  2: { erewrite try_except_caught; [| |reflexivity].
       - reflexivity.
       - apply bind_raise. unfold requests_get. rewrite Hget. reflexivity. }
  reflexivity.
Qed.

Lemma fetch_bbc_headlines_parse_fails (limit : Z) (w : World) (page : string) (e : Exc) :
  http_get (bbc w) = Ok page -> h3_texts (bbc w) page = Raise e ->
  fetch_bbc_headlines limit w
  = (Ok ["Error parsing news page: " ++ exc_str e],
     set_log (log w ++ [mkLog ERROR "Error parsing BBC page" (Some e)]) w).
Proof.
  intros Hget Hparse. unfold fetch_bbc_headlines.
  erewrite bind_ok; [|apply fetched_page, Hget]. cbv beta iota.
  erewrite try_except_caught; [| |reflexivity].
  - reflexivity.
  - apply bind_raise. unfold soup_h3_texts. rewrite Hparse. reflexivity.
Qed.

Lemma fetch_bbc_headlines_scraped (limit : Z) (w : World) (page : string)
      (headlines : list string) :
  http_get (bbc w) = Ok page -> h3_texts (bbc w) page = Ok headlines ->
  fetch_bbc_headlines limit w
  = (Ok (match clean_loop limit headlines [] with
         | [] => ["No headlines found."]
         | cleaned => cleaned
         end), w).
Proof.
  intros Hget Hparse. unfold fetch_bbc_headlines.
  erewrite bind_ok; [|apply fetched_page, Hget]. cbv beta iota.
  apply try_except_ok.
  erewrite bind_ok; [|unfold soup_h3_texts; rewrite Hparse; reflexivity].
  destruct (clean_loop limit headlines []); reflexivity.
Qed.

(** C6.  [fetch_bbc_headlines] returns a list in every world and for every
    limit, it never raises, and sends nothing.  When the HTTP fetch raises,
    the list is the one string [Could not fetch news: ...] with the text of
    the exception; when the parse of the fetched page raises, it is the one
    string [Error parsing news page: ...]. *)
Theorem fetch_bbc_headlines_never_raises (limit : Z) (w : World) :
  exists l w',
    fetch_bbc_headlines limit w = (Ok l, w') /\
    outbox w' = outbox w /\
    (forall e, http_get (bbc w) = Raise e -> l = ["Could not fetch news: " ++ exc_str e]) /\
    (forall page e, http_get (bbc w) = Ok page -> h3_texts (bbc w) page = Raise e ->
                    l = ["Error parsing news page: " ++ exc_str e]).
Proof.
  destruct (http_get (bbc w)) as [page|e] eqn:Hget.
  - destruct (h3_texts (bbc w) page) as [headlines|e] eqn:Hparse.
    + eexists. eexists. split; [apply (fetch_bbc_headlines_scraped _ _ _ _ Hget Hparse)|].
      repeat split; [discriminate|]. intros page' e Hpage. injection Hpage as <-. congruence.
    + eexists. eexists. split; [apply (fetch_bbc_headlines_parse_fails _ _ _ _ Hget Hparse)|].
      repeat split; [discriminate|]. intros page' e' Hpage. injection Hpage as <-. congruence.
  - eexists. eexists. split; [apply (fetch_bbc_headlines_fetch_fails _ _ _ Hget)|].
    repeat split; [congruence|discriminate].
Qed.

Lemma fetch_bbc_headlines_never_raises_witness :
  let timed_out := mkExc OtherException "HTTPSConnectionPool: Read timed out." in
  let w := initial_world (mkWeb (Raise timed_out) (fun _ => Ok [])) in
  fst (fetch_bbc_headlines MAX_NEWS_ITEMS w)
  = Ok ["Could not fetch news: HTTPSConnectionPool: Read timed out."].
Proof.
  intros timed_out w.
  destruct (fetch_bbc_headlines_never_raises MAX_NEWS_ITEMS w) as (l & w' & E & _ & Hfetch & _).
  rewrite E. simpl. f_equal. exact (Hfetch timed_out eq_refl).
Defined.

(** C10, as the code has it.  Whatever the limit and the world,
    [fetch_bbc_headlines] returns a list that is not empty, has at most
    [max limit 1] elements and no duplicate; when the fetch and the parse
    succeed, every string of the list has at least 5 characters. *)
Theorem fetch_bbc_headlines_postconditions (limit : Z) (w : World) :
  exists l w',
    fetch_bbc_headlines limit w = (Ok l, w') /\
    l <> [] /\
    Z.of_nat (length l) <= Z.max limit 1 /\
    NoDup l /\
    (forall page headlines,
       http_get (bbc w) = Ok page -> h3_texts (bbc w) page = Ok headlines ->
       Forall long_enough l).
Proof.
  destruct (http_get (bbc w)) as [page|e] eqn:Hget.
  - destruct (h3_texts (bbc w) page) as [headlines|e] eqn:Hparse.
    + destruct (clean_loop_spec limit headlines [] (NoDup_nil_2 (A:=string)) (List.Forall_nil long_enough)
                  (or_introl eq_refl)) as (Hnd & Hlong & Hlen).
      eexists. eexists. split; [apply (fetch_bbc_headlines_scraped _ _ _ _ Hget Hparse)|].
      destruct (clean_loop limit headlines []) as [|h cleaned].
      * repeat split; [discriminate|simpl; lia|apply NoDup_singleton|].
        intros _ _ _ _. constructor; [unfold long_enough; simpl; lia|constructor].
      * repeat split; [discriminate|exact Hlen|exact Hnd|]. intros _ _ _ _. exact Hlong.
    + eexists. eexists. split; [apply (fetch_bbc_headlines_parse_fails _ _ _ _ Hget Hparse)|].
      repeat split; [discriminate|simpl; lia|apply NoDup_singleton|].
      intros page' headlines Hpage. injection Hpage as <-. congruence.
  - eexists. eexists. split; [apply (fetch_bbc_headlines_fetch_fails _ _ _ Hget)|].
    repeat split; [discriminate|simpl; lia|apply NoDup_singleton|discriminate].
Qed.

Lemma fetch_bbc_headlines_postconditions_witness :
  let w := initial_world
             (mkWeb (Ok "<html>")
                (fun _ => Ok ["Storm hits coast"; "Live"; "Storm hits coast"; "Election results"])) in
  fst (fetch_bbc_headlines MAX_NEWS_ITEMS w) = Ok ["Storm hits coast"; "Election results"] /\
  Forall long_enough ["Storm hits coast"; "Election results"].
Proof.
  intros w.
  destruct (fetch_bbc_headlines_postconditions MAX_NEWS_ITEMS w)
    as (l & w' & E & _ & _ & _ & Hlong).
  specialize (Hlong "<html>" _ eq_refl eq_refl).
  assert (Hl : l = ["Storm hits coast"; "Election results"]).
  { assert (H : fst (fetch_bbc_headlines MAX_NEWS_ITEMS w) = Ok l) by (rewrite E; reflexivity).
    vm_compute in H. injection H as <-. reflexivity. }
  rewrite <- Hl. split; [rewrite E; reflexivity|exact Hlong].
Defined.

(** C10, as stated, fails for a limit that is not positive: the limit is
    compared only after a headline has been added, so with limit 0 one
    headline is returned. *)
Lemma fetch_bbc_headlines_exceeds_limit_zero :
  let w := initial_world (mkWeb (Ok "<html>") (fun _ => Ok ["Storm hits coast"; "Election results"])) in
  fst (fetch_bbc_headlines 0 w) = Ok ["Storm hits coast"] /\
  ~ (Z.of_nat (length ["Storm hits coast"]) <= 0).
Proof. intros w. split; [reflexivity|simpl; lia]. Qed.

(** ** Continuations are consumed once *)

Lemma run_ops_keeps_absent (chat : Z) (ops : list Registry.Op) (r : gmap Z Pending) :
  Forall (fun o => ~ Registry.registers chat o) ops ->
  r !! chat = None -> Registry.run_ops ops r !! chat = None.
Proof.
  unfold Registry.run_ops. revert r.
  induction ops as [|o ops IH]; intros r Hops Hnone; [exact Hnone|].
  apply Forall_cons in Hops as [Ho Hops]. simpl. apply IH; [exact Hops|].
  destruct o as [c p|c]; simpl in *.
  - unfold Registry.register. rewrite lookup_insert_ne by exact Ho. exact Hnone.
  - destruct (decide (c = chat)) as [->|Hne].
    + apply lookup_delete_eq.
    + rewrite lookup_delete_ne by exact Hne. exact Hnone.
Qed.

Lemma frames_preserves {A} (m : M A) : frames m -> preserves m.
Proof.
  intros Hm w [H1 H2 H3 H4 H5]. destruct (Hm w) as (Hr & Hn & Hi).
  split; rewrite ?Hr, ?Hn, ?Hi; assumption.
Qed.

Lemma preserves_ret {A} (a : A) : preserves (ret a).
Proof. intros w Hw. exact Hw. Qed.

Lemma preserves_lift {A} (r : Result A) : preserves (lift r).
Proof. intros w Hw. exact Hw. Qed.

Lemma preserves_bind {A B} (m : M A) (k : A -> M B) :
  preserves m -> (forall a, preserves (k a)) -> preserves (bind m k).
Proof.
  intros Hm Hk w Hw. unfold bind. specialize (Hm w Hw).
  destruct (m w) as [[a|e] w']; simpl in *; [apply Hk, Hm|exact Hm].
Qed.

Lemma preserves_try_except {A} (body : M A) (catches : Exc -> bool) (handler : Exc -> M A) :
  preserves body -> (forall e, preserves (handler e)) ->
  preserves (try_except body catches handler).
Proof.
  intros Hb Hh w Hw. unfold try_except. specialize (Hb w Hw).
  destruct (body w) as [[a|e] w']; simpl in *; [exact Hb|].
  destruct (catches e); [apply Hh, Hb|exact Hb].
Qed.

Lemma preserves_for_each {A} (items : list A) (body : A -> M unit) :
  (forall x, preserves (body x)) -> preserves (for_each items body).
Proof.
  intros Hb. induction items as [|x items IH]; simpl.
  - apply preserves_ret.
  - apply preserves_bind; [apply Hb|intros _; exact IH].
Qed.

Lemma preserves_transport_send (o : Outbound) : preserves (transport_send o).
Proof.
  apply frames_preserves. intros w. unfold transport_send.
  destruct (faults w) as [|[e|] rest]; repeat split.
Qed.

Lemma preserves_logger_record (r : LogRecord) : preserves (logger_record r).
Proof. apply frames_preserves. intros w. repeat split. Qed.

Lemma preserves_timer_start (chat : Z) (txt : option string) (interval : Z) :
  preserves (timer_start chat txt interval).
Proof.
  apply frames_preserves. intros w. unfold timer_start.
  destruct (interval <=? TIMEOUT_MAX (runtime w))%Z; repeat split.
Qed.

Lemma preserves_py_int (x : option string) : preserves (py_int x).
Proof. apply frames_preserves. intros w. repeat split. Qed.

Lemma preserves_random_choice (seq : list string) : preserves (random_choice seq).
Proof. apply frames_preserves. intros w. repeat split. Qed.

Lemma preserves_requests_get : preserves requests_get.
Proof. apply frames_preserves. intros w. repeat split. Qed.

Lemma preserves_soup_h3_texts (page : string) : preserves (soup_h3_texts page).
Proof. apply frames_preserves. intros w. repeat split. Qed.

(** A registration takes the next serial number, which nothing has yet. *)
Lemma preserves_register (chat : Z) (k : Continuation) :
  preserves (register_next_step_handler chat k).
Proof.
  intros w [H1 H2 H3 H4 H5]. unfold register_next_step_handler, Registry.register.
  split; simpl.
  - exact H1.
  - intros s Hs. specialize (H2 s Hs). lia.
  - intros c p Hp. destruct (decide (chat = c)) as [->|Hne].
    + rewrite lookup_insert_eq in Hp. injection Hp as <-. simpl. lia.
    + rewrite lookup_insert_ne in Hp by exact Hne. specialize (H3 c p Hp). lia.
  - intros c p Hp. destruct (decide (chat = c)) as [->|Hne].
    + rewrite lookup_insert_eq in Hp. injection Hp as <-. simpl.
      intros Hin. specialize (H2 _ Hin). lia.
    + rewrite lookup_insert_ne in Hp by exact Hne. exact (H4 c p Hp).
  - intros c1 c2 p1 p2 Hp1 Hp2 Heq.
    destruct (decide (chat = c1)) as [<-|Hne1]; destruct (decide (chat = c2)) as [<-|Hne2];
      [reflexivity| | |].
    + rewrite lookup_insert_eq in Hp1. rewrite lookup_insert_ne in Hp2 by exact Hne2.
      injection Hp1 as <-. simpl in Heq. specialize (H3 c2 p2 Hp2). lia.
    + rewrite lookup_insert_eq in Hp2. rewrite lookup_insert_ne in Hp1 by exact Hne1.
      injection Hp2 as <-. simpl in Heq. specialize (H3 c1 p1 Hp1). lia.
    + rewrite lookup_insert_ne in Hp1 by exact Hne1.
      rewrite lookup_insert_ne in Hp2 by exact Hne2. exact (H5 c1 c2 p1 p2 Hp1 Hp2 Heq).
Qed.

(** Taking the pending registration of a chat and recording its
    invocation. *)
Lemma serials_fresh_taken (chat : Z) (p : Pending) (w : World) :
  serials_fresh w -> registry w !! chat = Some p ->
  serials_fresh (set_invoked (serial p :: invoked w) (set_registry (delete chat) w)).
Proof.
  intros [H1 H2 H3 H4 H5] Hp. split; simpl.
  - apply NoDup_cons. split; [exact (H4 chat p Hp)|exact H1].
  - intros s Hs. apply elem_of_cons in Hs as [->|Hs]; [exact (H3 chat p Hp)|exact (H2 s Hs)].
  - intros c q Hq. apply lookup_delete_Some in Hq as [_ Hq]. exact (H3 c q Hq).
  - intros c q Hq Hin. apply lookup_delete_Some in Hq as [Hne Hq].
    apply elem_of_cons in Hin as [Heq|Hin]; [|exact (H4 c q Hq Hin)].
    apply Hne. exact (H5 chat c p q Hp Hq (eq_sym Heq)).
  - intros c1 c2 p1 p2 Hp1 Hp2 Heq.
    apply lookup_delete_Some in Hp1 as [_ Hp1]. apply lookup_delete_Some in Hp2 as [_ Hp2].
    exact (H5 c1 c2 p1 p2 Hp1 Hp2 Heq).
Qed.

Create HintDb preserves.

#[local] Hint Resolve preserves_ret preserves_lift preserves_transport_send
  preserves_logger_record preserves_timer_start preserves_py_int preserves_random_choice
  preserves_requests_get preserves_soup_h3_texts preserves_register : preserves.

(** Walk through a handler: binds, [try], loops and branches down to the
    library operations. *)
Ltac preserve :=
  repeat first
    [ progress auto with preserves
    | apply preserves_bind; [|intros ?]
    | apply preserves_try_except; [|intros ?]
    | apply preserves_for_each; intros ?
    | match goal with
      | |- preserves (if ?b then _ else _) => destruct b
      | |- preserves (match ?x with _ => _ end) => destruct x
      end ].

Lemma preserves_send_message (chat : Z) (txt : string) : preserves (send_message chat txt).
Proof. unfold send_message. preserve. Qed.

Lemma preserves_reply_to (m : Message) (txt : string) (markup : option (list string)) :
  preserves (reply_to m txt markup).
Proof. unfold reply_to. preserve. Qed.

#[local] Hint Resolve preserves_send_message preserves_reply_to : preserves.

Lemma preserves_fetch_bbc_headlines (limit : Z) : preserves (fetch_bbc_headlines limit).
Proof. unfold fetch_bbc_headlines, logger_warning, logger_exception. preserve. Qed.

Lemma preserves_send (chat : Z) (txt : option string) : preserves (send chat txt).
Proof. unfold send, logger_exception. preserve. Qed.

Lemma preserves_schedule_reminder (chat minutes : Z) (txt : option string) :
  preserves (schedule_reminder chat minutes txt).
Proof. unfold schedule_reminder, logger_info. preserve. Qed.

#[local] Hint Resolve preserves_fetch_bbc_headlines preserves_send
  preserves_schedule_reminder : preserves.

Lemma preserves_send_list_privately (m : Message) (items : list string) :
  preserves (send_list_privately m items).
Proof. unfold send_list_privately. preserve. Qed.

#[local] Hint Resolve preserves_send_list_privately : preserves.

Lemma preserves_command (name : string) (handler : Message -> M unit) (m : Message) :
  lookup_command command_handlers name = Some handler -> preserves (handler m).
Proof.
  unfold command_handlers. cbn [lookup_command].
  repeat (destruct (String.eqb _ name);
          [intros [= <-];
           unfold start, help_cmd, about, contact, send_quote, extra, flower, animal, food,
             vehicle, country, wonder, get_name, send_news, send_welcome;
           preserve|]).
  discriminate.
Qed.

Lemma preserves_handle_message (m : Message) : preserves (handle_message m).
Proof. unfold handle_message. preserve. Qed.

Lemma preserves_run_continuation (k : Continuation) (m : Message) :
  preserves (run_continuation k m).
Proof.
  destruct k; simpl;
    unfold get_min, set_reminder, handle_sports_type, handle_favorite_team,
      handle_current_season, handle_next_sport, handle_new_sport, handle_new_hobby,
      handle_book_type, handle_fav_book, handle_fav_type, handle_fav_song, handle_artist,
      handle_event_art;
    preserve.
Qed.

Lemma preserves_process_new_message (m : Message) : preserves (process_new_message m).
Proof.
  intros w Hw. destruct (registry w !! chat_id m) as [p|] eqn:Hp.
  - rewrite (process_pending m p w Hp).
    apply preserves_run_continuation, serials_fresh_taken; assumption.
  - rewrite (process_idle m w Hp). unfold command_of.
    destruct (text m) as [txt|]; [|apply preserves_handle_message, Hw].
    destruct (extract_command txt) as [name|]; [|apply preserves_handle_message, Hw].
    destruct (lookup_command command_handlers name) as [handler|] eqn:Hcmd;
      [|apply preserves_handle_message, Hw].
    apply (preserves_command name handler m Hcmd), Hw.
Qed.

Lemma preserves_fire (i : nat) : preserves (fire i).
Proof.
  intros w Hw. unfold fire.
  destruct (timers w !! i) as [t|]; [|exact Hw].
  destruct (due t w); [|exact Hw].
  apply preserves_send. destruct Hw as [H1 H2 H3 H4 H5]. split; assumption.
Qed.

Lemma preserves_step (e : Event) : preserves (step e).
Proof.
  destruct e; simpl;
    [apply preserves_process_new_message| |apply preserves_fire| | | |];
    apply frames_preserves; intros w; repeat split.
Qed.

Lemma serials_fresh_initial (b : Web) : serials_fresh (initial_world b).
Proof.
  split; simpl.
  - apply NoDup_nil_2.
  - intros s Hs. by apply elem_of_nil in Hs.
  - intros c p Hp. rewrite lookup_empty in Hp. discriminate Hp.
  - intros c p Hp. rewrite lookup_empty in Hp. discriminate Hp.
  - intros c1 c2 p1 p2 Hp. rewrite lookup_empty in Hp. discriminate Hp.
Qed.

Lemma serials_fresh_run (events : list Event) (w : World) :
  serials_fresh w -> serials_fresh (run events w).
Proof.
  unfold run. revert w. induction events as [|e events IH]; intros w Hw; [exact Hw|].
  simpl. apply IH, preserves_step, Hw.
Qed.

(** C1.  Of the registry: once [take] has been called for a chat, [take]
    for that chat returns none for as long as no [register] for the chat
    comes in between, whatever else is taken or registered.  Of the
    dispatch: the pending continuation of the chat is invoked on a world in
    which the entry of the chat is cleared, so that a later message for the
    chat finds only what that invocation registered.  Of every run from the
    start of the bot: no registration is invoked twice. *)
Theorem continuation_consumed_once :
  (forall (chat : Z) (r : gmap Z Pending) (ops : list Registry.Op),
     Forall (fun o => ~ Registry.registers chat o) ops ->
     fst (Registry.take chat (Registry.run_ops ops (snd (Registry.take chat r)))) = None) /\
  (forall (m : Message) (w : World) (p : Pending),
     registry w !! chat_id m = Some p ->
     let cleared := set_invoked (serial p :: invoked w) (set_registry (delete (chat_id m)) w) in
     process_new_message m w = run_continuation (cont p) m cleared /\
     registry cleared !! chat_id m = None) /\
  (forall (events : list Event) (b : Web),
     NoDup (invoked (run events (initial_world b)))).
Proof.
  split; [|split].
  - intros chat r ops Hops. simpl.
    apply run_ops_keeps_absent; [exact Hops|apply lookup_delete_eq].
  - intros m w p Hp cleared. split; [apply process_pending, Hp|apply lookup_delete_eq].
  - intros events b. apply invoked_nodup, serials_fresh_run, serials_fresh_initial.
Qed.

Lemma continuation_consumed_once_witness :
  let p := mkPending 0 K_get_min in
  let q := mkPending 1 K_handle_artist in
  let r : gmap Z Pending := <[7 := p]> ∅ in
  fst (Registry.take 7 r) = Some p /\
  fst (Registry.take 7
         (Registry.run_ops [Registry.Register 8 q; Registry.Take 8]
            (snd (Registry.take 7 r)))) = None.
Proof.
  intros p q r. split; [reflexivity|].
  destruct continuation_consumed_once as (Htake & _ & _).
  apply (Htake 7 r [Registry.Register 8 q; Registry.Take 8]).
  repeat constructor; simpl; [discriminate|tauto].
Defined.


(** * Further properties *)

(** ** Relating the world after a computation to the world before *)

Section Keeps.

Context (R : World -> World -> Prop) `{!PreOrder R}.

Lemma keeps_ret {A} (a : A) : keeps R (ret a).
Proof. intros w. reflexivity. Qed.

Lemma keeps_lift {A} (r : Result A) : keeps R (lift r).
Proof. intros w. reflexivity. Qed.

(** The continuation need only be looked at for values the first
    computation can return. *)
Lemma keeps_bind {A B} (m : M A) (k : A -> M B) :
  keeps R m -> (forall a w0, fst (m w0) = Ok a -> keeps R (k a)) -> keeps R (bind m k).
Proof.
  intros Hm Hk w. unfold bind. specialize (Hm w). specialize (Hk).
  destruct (m w) as [[a|e] w'] eqn:Hmw; simpl in *; [|exact Hm].
  transitivity w'; [exact Hm|]. apply (Hk a w). rewrite Hmw. reflexivity.
Qed.

Lemma keeps_try_except {A} (body : M A) (catches : Exc -> bool) (handler : Exc -> M A) :
  keeps R body -> (forall e, keeps R (handler e)) -> keeps R (try_except body catches handler).
Proof.
  intros Hb Hh w. unfold try_except. specialize (Hb w).
  destruct (body w) as [[a|e] w']; simpl in *; [exact Hb|].
  destruct (catches e); [|exact Hb].
  transitivity w'; [exact Hb|apply Hh].
Qed.

Lemma keeps_for_each {A} (items : list A) (body : A -> M unit) :
  (forall x, keeps R (body x)) -> keeps R (for_each items body).
Proof.
  intros Hb. induction items as [|x items IH]; simpl.
  - apply keeps_ret.
  - apply keeps_bind; [apply Hb|intros _ _ _; exact IH].
Qed.

End Keeps.

#[local] Instance only_chat_preorder (c : Z) : PreOrder (only_chat c).
Proof.
  split.
  - intros w. repeat split; try (exists []; rewrite app_nil_r; split; [reflexivity|constructor]).
  - intros w1 w2 w3 ((o1 & Ho1 & Hf1) & (t1 & Ht1 & Hg1) & Hr1)
                    ((o2 & Ho2 & Hf2) & (t2 & Ht2 & Hg2) & Hr2).
    split; [|split].
    + exists (o1 ++ o2)%list. rewrite Ho2, Ho1, app_assoc. split; [reflexivity|].
      apply Forall_app. split; assumption.
    + exists (t1 ++ t2)%list. rewrite Ht2, Ht1, app_assoc. split; [reflexivity|].
      apply Forall_app. split; assumption.
    + intros c' Hne. rewrite Hr2, Hr1 by exact Hne. reflexivity.
Qed.

#[local] Instance registry_kept_preorder : PreOrder registry_kept.
Proof.
  split.
  - intros w. split; reflexivity.
  - intros w1 w2 w3 [H1 H1'] [H2 H2']. split; congruence.
Qed.

Lemma inert_only_chat {A} (c : Z) (m : M A) : inert m -> keeps (only_chat c) m.
Proof.
  intros Hm w. destruct (Hm w) as (Ho & Ht & Hr & _). split; [|split].
  - exists []. rewrite Ho, app_nil_r. split; [reflexivity|constructor].
  - exists []. rewrite Ht, app_nil_r. split; [reflexivity|constructor].
  - intros c' _. rewrite Hr. reflexivity.
Qed.

Lemma inert_registry_kept {A} (m : M A) : inert m -> keeps registry_kept m.
Proof. intros Hm w. destruct (Hm w) as (_ & _ & Hr & Hn). split; assumption. Qed.

Lemma inert_logger_record (r : LogRecord) : inert (logger_record r).
Proof. intros w. repeat split. Qed.

Lemma inert_random_choice (seq : list string) : inert (random_choice seq).
Proof. intros w. repeat split. Qed.

Lemma inert_requests_get : inert requests_get.
Proof. intros w. repeat split. Qed.

Lemma inert_soup_h3_texts (page : string) : inert (soup_h3_texts page).
Proof. intros w. repeat split. Qed.

Lemma only_chat_transport_send (c : Z) (o : Outbound) :
  out_chat o = c -> keeps (only_chat c) (transport_send o).
Proof.
  intros Hc w. unfold transport_send.
  destruct (faults w) as [|[e|] rest]; simpl; (split; [|split]);
    try (exists []; rewrite app_nil_r; split; [reflexivity|constructor]);
    try (intros c' _; reflexivity);
    exists [o]; (split; [reflexivity|]); constructor; [exact Hc|constructor| exact Hc|constructor].
Qed.

Lemma inert_py_int (x : option string) : inert (py_int x).
Proof. intros w. repeat split. Qed.

Lemma only_chat_timer_start (c : Z) (txt : option string) (interval : Z) :
  keeps (only_chat c) (timer_start c txt interval).
Proof.
  intros w. unfold timer_start.
  destruct (interval <=? TIMEOUT_MAX (runtime w))%Z; simpl; [|reflexivity].
  split; [|split].
  - exists []. rewrite app_nil_r. split; [reflexivity|constructor].
  - eexists. split; [reflexivity|]. constructor; [reflexivity|constructor].
  - intros c' _. reflexivity.
Qed.

Lemma only_chat_register (c : Z) (k : Continuation) :
  keeps (only_chat c) (register_next_step_handler c k).
Proof.
  intros w. unfold register_next_step_handler, Registry.register. simpl. split; [|split].
  - exists []. rewrite app_nil_r. split; [reflexivity|constructor].
  - exists []. rewrite app_nil_r. split; [reflexivity|constructor].
  - intros c' Hne. simpl. rewrite lookup_insert_ne by congruence. reflexivity.
Qed.

Lemma registry_kept_transport_send (o : Outbound) : keeps registry_kept (transport_send o).
Proof.
  intros w. unfold transport_send. destruct (faults w) as [|[e|] rest]; split; reflexivity.
Qed.

Lemma registry_kept_timer_start (c : Z) (txt : option string) (interval : Z) :
  keeps registry_kept (timer_start c txt interval).
Proof.
  intros w. unfold timer_start.
  destruct (interval <=? TIMEOUT_MAX (runtime w))%Z; split; reflexivity.
Qed.

Lemma send_message_value (chat : Z) (txt : string) (w : World) (a : Z) :
  fst (send_message chat txt w) = Ok a -> a = chat.
Proof.
  unfold send_message, bind, transport_send, ret.
  destruct (faults w) as [|[e|] rest]; simpl; congruence.
Qed.

(** Walk through a handler, for [only_chat] and for [registry_kept]. *)
Ltac keep :=
  repeat first
    [ match goal with
      | H : fst (send_message _ _ _) = Ok _ |- _ => apply send_message_value in H; subst
      end
    | apply keeps_ret; apply _
    | apply keeps_lift; apply _
    | apply inert_only_chat;
      first [apply inert_logger_record|apply inert_random_choice|apply inert_py_int
            |apply inert_requests_get|apply inert_soup_h3_texts]
    | apply inert_registry_kept;
      first [apply inert_logger_record|apply inert_random_choice|apply inert_py_int
            |apply inert_requests_get|apply inert_soup_h3_texts]
    | apply only_chat_transport_send; reflexivity
    | apply only_chat_timer_start
    | apply only_chat_register
    | apply registry_kept_transport_send
    | apply registry_kept_timer_start
    | apply keeps_for_each; [apply _|intros ?]
    | apply keeps_try_except; [apply _| |intros ?]
    | apply keeps_bind; [apply _| |intros ? ? ?]
    | match goal with
      | |- keeps _ (if ?b then _ else _) => destruct b
      | |- keeps _ (match ?x with _ => _ end) => destruct x
      end ].

Lemma only_chat_command (name : string) (handler : Message -> M unit) (m : Message) :
  lookup_command command_handlers name = Some handler ->
  keeps (only_chat (chat_id m)) (handler m).
Proof.
  unfold command_handlers. cbn [lookup_command].
  repeat (destruct (String.eqb _ name);
          [intros [= <-];
           unfold start, help_cmd, about, contact, send_quote, extra, flower, animal, food,
             vehicle, country, wonder, get_name, send_news, send_welcome,
             send_list_privately, fetch_bbc_headlines, reply_to;
           keep|]).
  discriminate.
Qed.

Lemma only_chat_handle_message (m : Message) : keeps (only_chat (chat_id m)) (handle_message m).
Proof. unfold handle_message, reply_to. keep. Qed.

Lemma only_chat_run_continuation (k : Continuation) (m : Message) :
  keeps (only_chat (chat_id m)) (run_continuation k m).
Proof.
  destruct k; simpl;
    unfold get_min, set_reminder, schedule_reminder, handle_sports_type,
      handle_favorite_team, handle_current_season, handle_next_sport, handle_new_sport,
      handle_new_hobby, handle_book_type, handle_fav_book, handle_fav_type, handle_fav_song,
      handle_artist, handle_event_art, reply_to;
    keep.
Qed.

(** ** One chat at a time *)

(** X1.  Whatever the message, the pending continuation, the transport and
    the web do, handling one inbound message adds messages and timers for
    the chat of that message only, removes none, and leaves the pending
    continuation of every other chat as it was. *)
Theorem process_new_message_touches_only_its_chat (m : Message) (w : World) :
  only_chat (chat_id m) w (snd (process_new_message m w)).
Proof.
  destruct (registry w !! chat_id m) as [p|] eqn:Hp.
  - rewrite (process_pending m p w Hp).
    transitivity (set_invoked (serial p :: invoked w) (set_registry (delete (chat_id m)) w)).
    + split; [|split]; simpl.
      * exists []. rewrite app_nil_r. split; [reflexivity|constructor].
      * exists []. rewrite app_nil_r. split; [reflexivity|constructor].
      * intros c' Hne. rewrite lookup_delete_ne by congruence. reflexivity.
    + apply only_chat_run_continuation.
  - rewrite (process_idle m w Hp). unfold command_of.
    destruct (text m) as [txt|]; [|apply only_chat_handle_message].
    destruct (extract_command txt) as [name|]; [|apply only_chat_handle_message].
    destruct (lookup_command command_handlers name) as [handler|] eqn:Hcmd;
      [|apply only_chat_handle_message].
    apply (only_chat_command name handler m Hcmd).
Qed.

(** ** The minutes step, on every input *)

Lemma registry_kept_set_reminder (m : Message) (reminder_text : option string) :
  keeps registry_kept (set_reminder m reminder_text).
Proof. unfold set_reminder, schedule_reminder, send_message, reply_to. keep. Qed.

(** X2.  [set_reminder] is the end of the flow on every input and whatever
    the transport does: it never registers a continuation.  It starts at
    most one timer, and only when [int] of the text, as the interpreter
    computes it, is a positive number of minutes whose seconds the platform
    can wait for, and after the confirmation has been accepted by the
    transport. *)
Theorem set_reminder_is_terminal (m : Message) (reminder_text : option string) (w : World) :
  let w' := snd (set_reminder m reminder_text w) in
  registry w' = registry w /\
  (timers w' = timers w \/
   exists minutes,
     int_of w (text m) = Ok minutes /\ 0 < minutes /\
     minutes * 60 <= TIMEOUT_MAX (runtime w) /\
     timers w' = (timers w ++ [mkTimer (chat_id m) reminder_text (minutes * 60) (clock w)])%list /\
     outbox w' = (outbox w ++ [sent (chat_id m) (confirmation minutes reminder_text)])%list).
Proof.
  intros w'. split; [apply (registry_kept_set_reminder m reminder_text w)|].
  subst w'. destruct w as [r n inv out tm lg ck fs b rd rt].
  unfold set_reminder, try_except, send_message, reply_to, schedule_reminder,
    transport_send, timer_start, logger_info, logger_record, py_int, int_of, lift, ret, bind.
  world_simpl.
  destruct (Py.int (int_beyond rt) (text m)) as [minutes|e]; world_simpl.
  - destruct (Z.leb_spec minutes 0) as [Hle|Hpos]; world_simpl.
    + left. destruct fs as [|[e'|] rest]; world_simpl; try reflexivity.
      destruct (is_ValueError e'); world_simpl; [|reflexivity].
      destruct rest as [|[e''|] rest]; reflexivity.
    + destruct fs as [|[e'|] rest]; world_simpl.
      * destruct (Z.leb_spec (minutes * 60) (TIMEOUT_MAX rt)) as [Hmax|Hover]; world_simpl.
        -- right. exists minutes.
           split; [reflexivity|split; [exact Hpos|split; [exact Hmax|split; reflexivity]]].
        -- left. reflexivity.
      * left. destruct (is_ValueError e'); world_simpl; [|reflexivity].
        destruct rest as [|[e''|] rest]; reflexivity.
      * destruct (Z.leb_spec (minutes * 60) (TIMEOUT_MAX rt)) as [Hmax|Hover]; world_simpl.
        -- right. exists minutes.
           split; [reflexivity|split; [exact Hpos|split; [exact Hmax|split; reflexivity]]].
        -- left. reflexivity.
  - left. destruct (is_ValueError e); world_simpl; [|reflexivity].
    destruct fs as [|[e'|] rest]; reflexivity.
Qed.

(** ** Quotes *)

(** X3.  With a transport that accepts the send, [send_quote] replies to
    the message with exactly one message, and its text is one of the seven
    quotes, whatever the random pick. *)
Theorem send_quote_replies_with_a_quote (m : Message) (w : World) :
  faults w = [] ->
  exists quote,
    quote ∈ quotes /\
    send_quote m w
    = (Ok tt, set_outbox (outbox w ++ [replied m quote]) (set_rand (tl (rand w)) w)).
Proof.
  intros Hup. unfold send_quote, random_choice.
  eexists. split; [|unfold bind; cbv beta iota; rewrite reply_to_ok by exact Hup; reflexivity].
  apply list_elem_of_In, nth_In. apply Nat.mod_upper_bound. discriminate.
Qed.

Lemma send_quote_replies_with_a_quote_witness :
  let m := mkMessage 5 7 "group" (Some "/quote") in
  let w := set_rand [9%nat] (initial_world (mkWeb (Ok "") (fun _ => Ok []))) in
  exists quote, quote ∈ quotes /\ outbox (snd (send_quote m w)) = [replied m quote].
Proof.
  intros m w.
  destruct (send_quote_replies_with_a_quote m w eq_refl) as (quote & Hin & Hrun).
  exists quote. split; [exact Hin|]. rewrite Hrun. reflexivity.
Defined.

(** ** What the filter of the headlines keeps *)

(** What the loop adds to [cleaned] is taken from the headlines, in their
    order. *)
Lemma clean_loop_extends (limit : Z) (headlines cleaned : list string) :
  exists added,
    clean_loop limit headlines cleaned = (cleaned ++ added)%list /\
    sublist added headlines.
Proof.
  revert cleaned. induction headlines as [|h rest IH]; intros cleaned; simpl.
  - exists []. rewrite app_nil_r. split; [reflexivity|constructor].
  - destruct (Py.len h <? 5)%nat.
    { destruct (IH cleaned) as (added & Heq & Hsub).
      exists added. split; [exact Heq|apply sublist_cons, Hsub]. }
    destruct (existsb (String.eqb h) cleaned).
    { destruct (IH cleaned) as (added & Heq & Hsub).
      exists added. split; [exact Heq|apply sublist_cons, Hsub]. }
    destruct (Z.of_nat (length (cleaned ++ [h])) >=? limit)%Z.
    + exists [h]. split; [reflexivity|]. apply sublist_skip, sublist_nil_l.
    + destruct (IH (cleaned ++ [h])%list) as (added & Heq & Hsub).
      exists (h :: added). rewrite Heq, <- app_assoc. split; [reflexivity|].
      apply sublist_skip, Hsub.
Qed.

Lemma clean_loop_nil (limit : Z) (headlines cleaned : list string) :
  clean_loop limit headlines cleaned = [] <->
  cleaned = [] /\ Forall (fun h => ~ long_enough h) headlines.
Proof.
  revert cleaned. induction headlines as [|h rest IH]; intros cleaned; simpl.
  - split; [intros ->; split; [reflexivity|constructor]|intros [-> _]; reflexivity].
  - unfold long_enough at 1.
    destruct (Nat.ltb_spec (Py.len h) 5) as [Hshort|Hlong].
    { rewrite IH. split; intros [Hc Hall]; (split; [exact Hc|]).
      - constructor; [unfold long_enough; lia|exact Hall].
      - apply Forall_cons in Hall as [_ Hall]. exact Hall. }
    assert (Hno : ~ (cleaned = [] /\ Forall (fun h0 => ~ long_enough h0) (h :: rest))).
    { intros [_ Hall]. apply Forall_cons in Hall as [Hh _]. apply Hh. exact Hlong. }
    destruct (existsb (String.eqb h) cleaned) eqn:Hdup.
    { rewrite IH. split; [|intros H; destruct (Hno H)].
      intros [-> _]. discriminate Hdup. }
    destruct (Z.of_nat (length (cleaned ++ [h])) >=? limit)%Z.
    + split; [|intros H; destruct (Hno H)].
      intros Heq. destruct cleaned; discriminate Heq.
    + rewrite IH. split; [|intros H; destruct (Hno H)].
      intros [Heq _]. destruct cleaned; discriminate Heq.
Qed.

(** The limit only cuts the list short: with [cleaned] still below the
    bound, the result under [limit] is the beginning of the result under a
    limit that is never reached. *)
Lemma clean_loop_truncates (limit big : Z) (headlines cleaned : list string) :
  Z.of_nat (length cleaned + length headlines) < big ->
  (length cleaned < Z.to_nat (Z.max limit 1))%nat ->
  clean_loop limit headlines cleaned
  = take (Z.to_nat (Z.max limit 1)) (clean_loop big headlines cleaned).
Proof.
  revert cleaned. induction headlines as [|h rest IH]; intros cleaned Hbig Hroom; simpl.
  - rewrite take_ge by lia. reflexivity.
  - simpl in Hbig.
    destruct (Py.len h <? 5)%nat; [apply IH; lia|].
    destruct (existsb (String.eqb h) cleaned); [apply IH; lia|].
    assert (Hlen : length (cleaned ++ [h]) = S (length cleaned))
      by (rewrite length_app; simpl; lia).
    destruct (Z.geb_spec (Z.of_nat (length (cleaned ++ [h]))) big) as [Hfull|_]; [lia|].
    destruct (Z.geb_spec (Z.of_nat (length (cleaned ++ [h]))) limit) as [Hstop|Hgo].
    + destruct (clean_loop_extends big rest (cleaned ++ [h])%list) as (added & -> & _).
      replace (Z.to_nat (Z.max limit 1)) with (length (cleaned ++ [h])) by lia.
      rewrite take_app_length. reflexivity.
    + apply IH; lia.
Qed.

(** X4.  The limit of [fetch_bbc_headlines] only cuts the list short: the
    headlines kept under [limit] are the first [max limit 1] of the
    headlines kept when the limit is out of reach. *)
Theorem clean_loop_limit_truncates (limit big : Z) (headlines : list string) :
  Z.of_nat (length headlines) < big ->
  clean_loop limit headlines []
  = take (Z.to_nat (Z.max limit 1)) (clean_loop big headlines []).
Proof.
  intros Hbig. apply clean_loop_truncates; simpl; lia.
Qed.

Lemma clean_loop_limit_truncates_witness :
  let page := ["Storm hits coast"; "Live"; "Election results"; "Storm hits coast";
               "Markets fall"] in
  clean_loop 2 page [] = ["Storm hits coast"; "Election results"] /\
  clean_loop 2 page [] = take 2 (clean_loop 6 page []).
Proof.
  intros page. split; [reflexivity|].
  apply (clean_loop_limit_truncates 2 6 page). simpl. lia.
Defined.

(** X5.  When the page is fetched and parsed, what [fetch_bbc_headlines]
    returns is read off the [h3] texts: if none has 5 characters or more the
    list is the one string [No headlines found.]; otherwise it is a
    non-empty selection of the [h3] texts, in the order of the page. *)
Theorem fetch_bbc_headlines_selects (limit : Z) (w : World) (page : string)
        (headlines : list string) :
  http_get (bbc w) = Ok page -> h3_texts (bbc w) page = Ok headlines ->
  exists l,
    fetch_bbc_headlines limit w = (Ok l, w) /\
    (Forall (fun h => ~ long_enough h) headlines -> l = ["No headlines found."]) /\
    (Exists long_enough headlines -> l <> [] /\ sublist l headlines).
Proof.
  intros Hget Hparse. eexists. split; [apply (fetch_bbc_headlines_scraped _ _ _ _ Hget Hparse)|].
  destruct (clean_loop limit headlines []) as [|h cleaned] eqn:Hloop.
  - apply clean_loop_nil in Hloop as [_ Hall]. split; [reflexivity|].
    intros Hex. apply Exists_exists in Hex as (h & Hin & Hlong).
    rewrite Forall_forall in Hall. destruct (Hall h Hin Hlong).
  - split.
    + intros Hall. assert (Hnil : clean_loop limit headlines [] = [])
        by (apply clean_loop_nil; split; [reflexivity|exact Hall]).
      rewrite Hloop in Hnil. discriminate Hnil.
    + intros _. split; [discriminate|].
      destruct (clean_loop_extends limit headlines []) as (added & Heq & Hsub).
      rewrite Hloop in Heq. simpl in Heq. rewrite Heq. exact Hsub.
Qed.

Lemma fetch_bbc_headlines_selects_witness :
  let w := initial_world (mkWeb (Ok "<html>") (fun _ => Ok ["café"; "Now"])) in
  fst (fetch_bbc_headlines MAX_NEWS_ITEMS w) = Ok ["No headlines found."].
Proof.
  intros w.
  destruct (fetch_bbc_headlines_selects MAX_NEWS_ITEMS w "<html>" ["café"; "Now"]
              eq_refl eq_refl) as (l & Hrun & Hnone & _).
  rewrite Hrun. simpl. f_equal. apply Hnone.
  repeat constructor; unfold long_enough; simpl; lia.
Defined.

(** ** The news command *)

(** What [fetch_bbc_headlines] leaves behind and returns, on every path. *)
Lemma fetch_bbc_headlines_result (limit : Z) (w : World) :
  exists l w1,
    fetch_bbc_headlines limit w = (Ok l, w1) /\
    faults w1 = faults w /\ outbox w1 = outbox w /\
    l <> [] /\ Z.of_nat (length l) <= Z.max limit 1 /\ NoDup l /\
    (forall e, http_get (bbc w) = Raise e ->
               l = ["Could not fetch news: " ++ exc_str e] /\
               log w1 = (log w ++ [mkLog WARNING ("Failed to fetch BBC headlines: " ++ exc_str e)
                                     None])%list).
Proof.
  destruct (http_get (bbc w)) as [page|e] eqn:Hget.
  - destruct (h3_texts (bbc w) page) as [headlines|e] eqn:Hparse.
    + destruct (clean_loop_spec limit headlines [] (NoDup_nil_2 (A:=string))
                  (List.Forall_nil long_enough) (or_introl eq_refl)) as (Hnd & _ & Hlen).
      eexists. eexists. split; [apply (fetch_bbc_headlines_scraped _ _ _ _ Hget Hparse)|].
      do 2 (split; [reflexivity|]).
      destruct (clean_loop limit headlines []) as [|h cleaned].
      * split; [discriminate|]. split; [simpl; lia|]. split; [apply NoDup_singleton|].
        intros e He. discriminate He.
      * split; [discriminate|]. split; [exact Hlen|]. split; [exact Hnd|].
        intros e He. discriminate He.
    + eexists. eexists. split; [apply (fetch_bbc_headlines_parse_fails _ _ _ _ Hget Hparse)|].
      do 2 (split; [reflexivity|]).
      split; [discriminate|]. split; [simpl; lia|]. split; [apply NoDup_singleton|].
      intros e' He. discriminate He.
  - eexists. eexists. split; [apply (fetch_bbc_headlines_fetch_fails _ _ _ Hget)|].
    do 2 (split; [reflexivity|]).
    split; [discriminate|]. split; [simpl; lia|]. split; [apply NoDup_singleton|].
    intros e' [= <-]. split; reflexivity.
Qed.

(** X6.  In a private chat and with a transport that accepts the sends,
    [send_news] sends the chat exactly the strings [fetch_bbc_headlines]
    returns for the limit 10, one message each and in that order: at least
    one message, at most ten, no two with the same text.  When the fetch
    raises, the one message is [Could not fetch news: ...] and one warning
    is logged. *)
Theorem send_news_sends_the_headlines (m : Message) (w : World) :
  chat_type m = "private" -> faults w = [] ->
  exists l w1,
    fetch_bbc_headlines MAX_NEWS_ITEMS w = (Ok l, w1) /\
    send_news m w = (Ok tt, set_outbox (outbox w ++ map (sent (chat_id m)) l) w1) /\
    (1 <= length l <= 10)%nat /\ NoDup l /\
    (forall e, http_get (bbc w) = Raise e ->
               l = ["Could not fetch news: " ++ exc_str e] /\
               log w1 = (log w ++ [mkLog WARNING ("Failed to fetch BBC headlines: " ++ exc_str e)
                                     None])%list).
Proof.
  intros Hty Hup.
  destruct (fetch_bbc_headlines_result MAX_NEWS_ITEMS w)
    as (l & w1 & Hfetch & Hf & Ho & Hne & Hlen & Hnd & Hfail).
  exists l, w1. split; [exact Hfetch|]. split.
  - unfold send_news. apply String.eqb_eq in Hty. rewrite Hty. simpl.
    rewrite (bind_ok _ _ _ _ _ Hfetch).
    rewrite send_each_ok by (rewrite Hf; exact Hup). rewrite Ho. reflexivity.
  - split; [|split; assumption].
    unfold MAX_NEWS_ITEMS in Hlen. destruct l; [congruence|simpl in *; lia].
Qed.

Lemma send_news_sends_the_headlines_witness :
  let m := mkMessage 5 7 "private" (Some "/news") in
  let down := mkExc OtherException "503 Server Error" in
  let w := initial_world (mkWeb (Raise down) (fun _ => Ok [])) in
  outbox (snd (send_news m w)) = [sent 7 "Could not fetch news: 503 Server Error"].
Proof.
  intros m down w.
  destruct (send_news_sends_the_headlines m w eq_refl eq_refl)
    as (l & w1 & Hfetch & Hrun & _ & _ & Hfail).
  destruct (Hfail down eq_refl) as [-> _]. rewrite Hrun. reflexivity.
Defined.

(** X7.  Outside a private chat, with a transport that accepts the send,
    [send_news] sends the refusal and does nothing else: the page is not
    fetched, so nothing is logged even when the site is down. *)
Theorem send_news_refuses_outside_private (m : Message) (w : World) :
  chat_type m <> "private" -> faults w = [] ->
  send_news m w
  = (Ok tt, set_outbox (outbox w ++ [sent (chat_id m) "News is not available in group chats."]) w).
Proof.
  intros Hty Hup. unfold send_news. apply String.eqb_neq in Hty. rewrite Hty. simpl.
  erewrite bind_ok; [|apply send_message_ok, Hup]. reflexivity.
Qed.

Lemma send_news_refuses_outside_private_witness :
  let m := mkMessage 5 (-100) "group" (Some "/news") in
  let w := initial_world (mkWeb (Raise (mkExc OtherException "503 Server Error"))
                            (fun _ => Ok [])) in
  log (snd (send_news m w)) = [] /\
  outbox (snd (send_news m w)) = [sent (-100) "News is not available in group chats."].
Proof.
  intros m w.
  rewrite (send_news_refuses_outside_private m w ltac:(discriminate) eq_refl).
  split; reflexivity.
Defined.

(** ** Lists sent item by item *)

Lemma send_each_fault (chat : Z) (items : list string) (w : World) (k : nat) (e : Exc)
      (rest : list (option Exc)) :
  faults w = (replicate k None ++ Some e :: rest)%list -> (k < length items)%nat ->
  for_each items (fun item => send_message chat item >> ret tt) w
  = (Raise e,
     set_outbox (outbox w ++ map (sent chat) (take k items)) (set_faults rest w)).
Proof.
  revert w k. induction items as [|item items IH]; intros w k Hf Hk; simpl in Hk; [lia|].
  destruct k as [|k]; simpl in Hf; simpl.
  - rewrite (bind_raise _ _ _ _ _
               (bind_raise _ (fun _ => ret tt) _ _ _ (send_message_fault chat item w e rest Hf))).
    destruct w; simpl. rewrite app_nil_r. reflexivity.
  - assert (Hsent : send_message chat item w
                    = (Ok chat, set_outbox (outbox w ++ [sent chat item])
                                  (set_faults (replicate k None ++ Some e :: rest) w))).
    { unfold send_message, bind, transport_send. rewrite Hf. reflexivity. }
    rewrite (bind_ok _ _ _ _ _ (bind_ok _ (fun _ => ret tt) _ _ _ Hsent)).
    unfold ret at 1. rewrite (IH _ k); [|reflexivity|lia].
    destruct w; simpl. rewrite <- app_assoc. reflexivity.
Qed.

(** X8.  [send_list_privately] has no [try]: in a private chat, when the
    transport accepts [k] sends and raises on the next one, the first [k]
    items have been sent, the others are not, and the exception leaves the
    handler. *)
Theorem send_list_privately_stops_at_fault (m : Message) (items : list string) (w : World)
        (k : nat) (e : Exc) (rest : list (option Exc)) :
  chat_type m = "private" ->
  faults w = (replicate k None ++ Some e :: rest)%list -> (k < length items)%nat ->
  send_list_privately m items w
  = (Raise e,
     set_outbox (outbox w ++ map (sent (chat_id m)) (take k items)) (set_faults rest w)).
Proof.
  intros Hty Hf Hk. unfold send_list_privately.
  apply String.eqb_eq in Hty. rewrite Hty. simpl. apply send_each_fault; assumption.
Qed.

Lemma send_list_privately_stops_at_fault_witness :
  let m := mkMessage 5 7 "private" (Some "/food") in
  let gone := mkExc OtherException "ApiTelegramException: bot was blocked by the user" in
  let w := set_faults [None; None; Some gone]
             (initial_world (mkWeb (Ok "") (fun _ => Ok []))) in
  food m w = (Raise gone, set_outbox [sent 7 "Pizza"; sent 7 "Burger"] (set_faults [] w)).
Proof.
  intros m gone w.
  apply (send_list_privately_stops_at_fault m foods w 2 gone [] eq_refl eq_refl).
  simpl. lia.
Defined.

(** ** The reminder flow, for every body and every number of minutes *)

(** X9.  A chat with no pending continuation sends [/alert], then any
    message, then a text of which [int], as the interpreter computes it, is
    a positive number of minutes whose seconds the platform can wait for;
    time passes between the messages and the transport accepts the sends.
    The three prompts are sent in order, the last one confirming the number
    and the body; exactly one timer is started, for that chat, with 60
    seconds per minute counted from the third message; nothing is left
    pending; and when the timer fires the message is [Reminder: ] followed
    by the text of the second message, taken verbatim, or by [None] if that
    message carried no text. *)
Theorem reminder_flow_schedules (c : Z) (m1 m2 m3 : Message) (w : World) (d1 d2 : N)
        (minutes : Z) :
  chat_id m1 = c -> chat_id m2 = c -> chat_id m3 = c ->
  text m1 = Some "/alert" ->
  int_of w (text m3) = Ok minutes -> 0 < minutes ->
  minutes * 60 <= TIMEOUT_MAX (runtime w) ->
  registry w !! c = None -> faults w = [] ->
  let w' := run [Inbound m1; Elapse d1; Inbound m2; Elapse d2; Inbound m3] w in
  timers w' = (timers w ++ [mkTimer c (text m2) (minutes * 60)
                              (clock w + Z.of_N d1 + Z.of_N d2)])%list /\
  registry w' !! c = None /\
  outbox w' = (outbox w ++ [sent c "What should I remind you about?";
                            sent c "In how many minutes? (Please enter time in minutes)";
                            sent c (confirmation minutes (text m2))])%list /\
  (forall seconds, minutes * 60 <= Z.of_N seconds ->
     outbox (run [Elapse seconds; Fire (length (timers w))] w')
     = (outbox w' ++ [sent c ("Reminder: " ++ format_opt (text m2))])%list).
Proof.
  intros Hc1 Hc2 Hc3 Ht1 Hint Hpos Hmax Hidle Hup w'.
  pose proof (reminder_flow_world c m1 m2 m3 w d1 d2 minutes Hc1 Hc2 Hc3 Ht1 Hint
                Hpos Hmax Hidle Hup) as Hw'.
  fold w' in Hw'. clearbody w'. subst w'.
  split; [reflexivity|]. split; [exact Hidle|]. split; [reflexivity|].
  intros seconds Hs.
  apply (last_timer_fires _ (timers w)
           (mkTimer c (text m2) (minutes * 60) (clock w + Z.of_N d1 + Z.of_N d2)) seconds);
    [exact Hup|reflexivity|reflexivity|exact Hs].
Qed.

Lemma reminder_flow_schedules_witness :
  let w := initial_world (mkWeb (Ok "") (fun _ => Ok [])) in
  let w' := run [Inbound (mkMessage 1 7 "private" (Some "/alert")); Elapse 5;
                 Inbound (mkMessage 2 7 "private" None); Elapse 5;
                 Inbound (mkMessage 3 7 "private" (Some " 1_0 "))] w in
  timers w' = [mkTimer 7 None 600 10] /\
  outbox (run [Elapse 600; Fire 0] w') = (outbox w' ++ [sent 7 "Reminder: None"])%list.
Proof.
  intros w w'.
  destruct (reminder_flow_schedules 7
              (mkMessage 1 7 "private" (Some "/alert"))
              (mkMessage 2 7 "private" None)
              (mkMessage 3 7 "private" (Some " 1_0 ")) w 5 5 10
              eq_refl eq_refl eq_refl eq_refl eq_refl eq_refl ltac:(simpl; lia)
              eq_refl eq_refl)
    as (Htimers & _ & _ & Hfire).
  split; [exact Htimers|]. apply (Hfire 600%N). simpl. lia.
Defined.

(** ** Flow steps when the transport fails *)

Lemma reply_to_fault (m : Message) (txt : string) (markup : option (list string)) (w : World)
      (e : Exc) (rest : list (option Exc)) :
  faults w = Some e :: rest -> reply_to m txt markup w = (Raise e, set_faults rest w).
Proof. intros H. unfold reply_to, transport_send. rewrite H. reflexivity. Qed.

(** X10.  Every step of a flow but the minutes step sends its prompt
    before it registers its successor and has no [try]: when the transport
    raises on the prompt, the exception leaves the handler, nothing is sent,
    no timer is started and, the pending continuation having been taken,
    nothing is left pending for the chat. *)
Theorem flow_step_abandoned_when_prompt_fails (c : Z) (k : Continuation) (m : Message)
        (w : World) (e : Exc) (rest : list (option Exc)) :
  chat_id m = c -> (forall reminder_text, k <> K_set_reminder reminder_text) ->
  faults w = Some e :: rest -> cont <$> (registry w !! c) = Some k ->
  exists w',
    process_new_message m w = (Raise e, w') /\
    outbox w' = outbox w /\ timers w' = timers w /\
    registry w' !! c = None /\ faults w' = rest.
Proof.
  intros Hc Hk Hf Hreg.
  destruct (registry w !! c) as [p|] eqn:Hp; [|discriminate Hreg].
  simpl in Hreg. injection Hreg as Hcont.
  eexists. split.
  - rewrite (process_pending m p w) by (rewrite Hc; exact Hp). rewrite Hcont.
    destruct k; simpl;
      try (exfalso; eapply Hk; reflexivity);
      unfold get_min, handle_sports_type, handle_favorite_team, handle_current_season,
        handle_next_sport, handle_new_sport, handle_new_hobby, handle_book_type,
        handle_fav_book, handle_fav_type, handle_fav_song, handle_artist, handle_event_art;
      first [ apply bind_raise; first [apply send_message_fault|apply reply_to_fault]; exact Hf
            | apply reply_to_fault; exact Hf ].
  - simpl. rewrite Hc. repeat split. apply lookup_delete_eq.
Qed.

Lemma flow_step_abandoned_when_prompt_fails_witness :
  let gone := mkExc OtherException "ApiTelegramException: bot was blocked by the user" in
  let w := set_faults [Some gone]
             (run [Inbound (mkMessage 1 7 "private" (Some "/alert"))]
                (initial_world (mkWeb (Ok "") (fun _ => Ok [])))) in
  exists w',
    process_new_message (mkMessage 2 7 "private" (Some "buy milk")) w = (Raise gone, w') /\
    registry w' !! 7 = None.
Proof.
  intros gone w.
  destruct (flow_step_abandoned_when_prompt_fails 7 K_get_min
              (mkMessage 2 7 "private" (Some "buy milk")) w gone [] eq_refl
              ltac:(discriminate) eq_refl eq_refl) as (w' & Hrun & _ & _ & Hreg & _).
  exists w'. split; assumption.
Defined.

(** ** Topic chains, run to their end *)

Lemma run_cons (e : Event) (events : list Event) (w : World) :
  run (e :: events) w = run events (snd (step e w)).
Proof. reflexivity. Qed.

(** From step [i] of a chain, as many messages as there are steps left
    bring the chain to its end. *)
Lemma chain_runs_out (t : Topic) (c : Z) (ms : list Message) (i : nat) (w : World) :
  Forall (fun m => chat_id m = c) ms -> faults w = [] ->
  cont <$> (registry w !! c) = chain t !! i ->
  (i + length ms = length (chain t))%nat ->
  registry (run (map Inbound ms) w) !! c = None /\
  outbox (run (map Inbound ms) w)
  = (outbox w ++ zip_with (fun k m => replied m (prompt_of k m)) (drop i (chain t)) ms)%list /\
  timers (run (map Inbound ms) w) = timers w.
Proof.
  revert i w. induction ms as [|m ms IH]; intros i w Hms Hup Hreg Hlen; simpl in Hlen.
  - rewrite lookup_ge_None_2 in Hreg by lia.
    rewrite zip_with_nil_r. simpl. rewrite app_nil_r. repeat split.
    destruct (registry w !! c); [discriminate Hreg|reflexivity].
  - apply Forall_cons in Hms as [Hm Hms].
    assert (Hi : (i < length (chain t))%nat) by lia.
    apply lookup_lt_is_Some_2 in Hi as [k Hk].
    rewrite Hk in Hreg.
    destruct (chain_dispatch t i k c m w Hk Hm Hup Hreg)
      as (w1 & Hrun & Ho & Hf & Ht & Hr & _).
    simpl map. rewrite run_cons. simpl step. rewrite Hrun. simpl snd.
    assert (Hlen' : (S i + length ms = length (chain t))%nat) by lia.
    destruct (IH (S i) w1 Hms Hf Hr Hlen') as (Hnone & Hout & Htimers).
    split; [exact Hnone|]. split; [|congruence].
    rewrite Hout, Ho, <- app_assoc, (drop_S _ _ _ Hk). reflexivity.
Qed.

(** X11.  For each of the four topics: a chat with no pending continuation
    sends the keyword and then as many messages as the chain has steps,
    whatever they contain, and the transport accepts the sends.  Then the
    keyword has been answered by the opening prompt and each message by the
    prompt of its step, in order; the chain is over with nothing pending
    for the chat; and no timer was started. *)
Theorem topic_chain_runs_to_its_end (t : Topic) (c : Z) (m0 : Message) (ms : list Message)
        (w : World) :
  chat_id m0 = c -> Forall (fun m => chat_id m = c) ms ->
  text m0 = Some (keyword t) -> length ms = length (chain t) ->
  registry w !! c = None -> faults w = [] ->
  let w' := run (map Inbound (m0 :: ms)) w in
  registry w' !! c = None /\
  outbox w' = (outbox w ++ replied m0 (opening_prompt t)
                 :: zip_with (fun k m => replied m (prompt_of k m)) (chain t) ms)%list /\
  timers w' = timers w.
Proof.
  intros Hc0 Hms Htext Hlen Hidle Hup w'. subst w'.
  destruct (keyword_dispatch t c m0 w Hc0 Htext Hup Hidle)
    as (w1 & Hrun & Ho & Hf & Ht & Hr & _).
  simpl map. rewrite run_cons. simpl step. rewrite Hrun. simpl snd.
  destruct (chain_runs_out t c ms 0 w1 Hms Hf Hr Hlen)
    as (Hnone & Hout & Htimers).
  split; [exact Hnone|]. split; [|congruence].
  rewrite Hout, Ho, <- app_assoc. reflexivity.
Qed.

Lemma topic_chain_runs_to_its_end_witness :
  let say i txt := mkMessage i 7 "private" (Some txt) in
  let w' := run (map Inbound [say 0 "Music"; say 1 "/alert"; say 2 "Sports"])
                (initial_world (mkWeb (Ok "") (fun _ => Ok []))) in
  registry w' !! 7 = None /\
  out_text <$> outbox w'
  = ["Cool! What kind of music do you like to listen to?";
     "Amazing choice. What's your fav song?"; "Great choice!"].
Proof.
  intros say w'.
  destruct (topic_chain_runs_to_its_end Music 7 (say 0 "Music")
              [say 1 "/alert"; say 2 "Sports"]
              (initial_world (mkWeb (Ok "") (fun _ => Ok [])))
              eq_refl ltac:(repeat constructor) eq_refl eq_refl eq_refl eq_refl)
    as (Hnone & Hout & _).
  split; [exact Hnone|]. fold w' in Hout. rewrite Hout. reflexivity.
Defined.

(** X12.  The step [handle_new_sport] on a message that carries no text, or
    an empty one: the prompt reads [that sport] in place of the reply, and
    the chain goes on to [handle_new_hobby]. *)
Theorem handle_new_sport_without_text (c : Z) (m : Message) (w : World) :
  chat_id m = c -> text m = None \/ text m = Some "" ->
  faults w = [] -> cont <$> (registry w !! c) = Some K_handle_new_sport ->
  exists w',
    process_new_message m w = (Ok tt, w') /\
    outbox w' = (outbox w ++ [replied m "have you taken part in that sport?"])%list /\
    cont <$> (registry w' !! c) = Some K_handle_new_hobby.
Proof.
  intros Hc Htext Hup Hreg.
  destruct (chain_dispatch Sports 4 K_handle_new_sport c m w eq_refl Hc Hup Hreg)
    as (w' & Hrun & Ho & _ & _ & Hr & _).
  exists w'. split; [exact Hrun|]. split; [|exact Hr].
  rewrite Ho. unfold prompt_of. simpl.
  destruct Htext as [-> | ->]; reflexivity.
Qed.

Lemma handle_new_sport_without_text_witness :
  let say i txt := mkMessage i 7 "private" (Some txt) in
  let photo := mkMessage 5 7 "private" None in
  let w := run (map Inbound [say 0 "Sports"; say 1 "Football"; say 2 "Ajax"; say 3 "fine";
                             say 4 "yes"])
               (initial_world (mkWeb (Ok "") (fun _ => Ok []))) in
  exists w',
    process_new_message photo w = (Ok tt, w') /\
    outbox w' = (outbox w ++ [replied photo "have you taken part in that sport?"])%list.
Proof.
  intros say photo w.
  destruct (handle_new_sport_without_text 7 photo w eq_refl (or_introl eq_refl) eq_refl eq_refl)
    as (w' & Hrun & Ho & _).
  exists w'. split; assumption.
Defined.

(** ** The confirmation inside the [try] of [set_reminder] *)

(** X13.  The confirmation of [set_reminder] is sent inside the [try]
    whose clause is [except ValueError].  On a text of which [int], as the
    interpreter computes it, is a positive integer, when the transport
    raises on the confirmation: if the
    exception is a [ValueError] the handler answers as for a wrong number,
    with [Invalid number of minutes. Please enter a positive integer.];
    any other exception leaves the handler.  No timer is started either
    way. *)
Theorem set_reminder_confirmation_fails (m : Message) (reminder_text : option string)
        (w : World) (minutes : Z) (e : Exc) :
  int_of w (text m) = Ok minutes -> 0 < minutes ->
  faults w = [Some e] ->
  (is_ValueError e = true ->
   set_reminder m reminder_text w
   = (Ok tt, set_outbox (outbox w ++ [replied m invalid_minutes]) (set_faults [] w))) /\
  (is_ValueError e = false ->
   set_reminder m reminder_text w = (Raise e, set_faults [] w)) /\
  timers (snd (set_reminder m reminder_text w)) = timers w.
Proof.
  intros Hint Hpos Hf.
  assert (Hbody :
    (let* minutes := py_int (text m) in
     if (minutes <=? 0)%Z then
       reply_to m "Please enter a positive number of minutes." None
     else
       send_message (chat_id m)
         ("Reminder set for " ++ str_of_int minutes ++ " minutes: "
          ++ format_opt reminder_text) >>
       schedule_reminder (chat_id m) minutes reminder_text) w
    = (Raise e, set_faults [] w)).
  { erewrite bind_ok; [|rewrite py_int_run, Hint; reflexivity].
    destruct (Z.leb_spec minutes 0) as [Hle|_]; [lia|].
    apply bind_raise, send_message_fault, Hf. }
  assert (Hyes : is_ValueError e = true ->
                 set_reminder m reminder_text w
                 = (Ok tt, set_outbox (outbox w ++ [replied m invalid_minutes])
                             (set_faults [] w))).
  { intros He. unfold set_reminder.
    rewrite (try_except_caught _ _ _ _ _ _ Hbody He).
    rewrite reply_to_ok by reflexivity. reflexivity. }
  assert (Hno : is_ValueError e = false ->
                set_reminder m reminder_text w = (Raise e, set_faults [] w)).
  { intros He. unfold set_reminder. apply (try_except_uncaught _ _ _ _ _ _ Hbody He). }
  split; [exact Hyes|]. split; [exact Hno|].
  destruct (is_ValueError e); [rewrite Hyes|rewrite Hno]; reflexivity.
Qed.

Lemma set_reminder_confirmation_fails_witness :
  let bad := mkExc ValueError "UnicodeEncodeError: surrogates not allowed" in
  let m := mkMessage 3 7 "private" (Some "30") in
  let w := set_faults [Some bad] (initial_world (mkWeb (Ok "") (fun _ => Ok []))) in
  outbox (snd (set_reminder m (Some "buy milk") w)) = [replied m invalid_minutes] /\
  timers (snd (set_reminder m (Some "buy milk") w)) = [].
Proof.
  intros bad m w.
  destruct (set_reminder_confirmation_fails m (Some "buy milk") w 30 bad
              eq_refl eq_refl eq_refl) as (Hyes & _ & Htimers).
  split; [rewrite (Hyes eq_refl); reflexivity|exact Htimers].
Defined.

(** ** The keyboard *)

(** X14.  [send_welcome] offers the keyboard, and every button of the
    keyboard is a text [handle_message] reacts to: with a transport that
    accepts the sends, a message whose text is a button is answered with
    the opening prompt of a topic and the first step of that topic is
    registered for the chat. *)
Theorem keyboard_buttons_start_chains (m : Message) (w : World) (label : string) :
  faults w = [] -> label ∈ keyboard_markup -> text m = Some label ->
  send_welcome m w
  = (Ok tt,
     set_outbox
       (outbox w ++
        [mkOutbound (chat_id m)
           "Hi there! I'm a chatbot that can chat with you about your interests. Choose an option:"
           (Some (message_id m)) (Some keyboard_markup)]) w) /\
  exists t first,
    keyword t = label /\ chain t !! 0%nat = Some first /\
    handle_message m w
    = (Ok tt,
       set_next_serial (S (next_serial w))
         (set_registry (<[chat_id m := mkPending (next_serial w) first]>)
            (set_outbox (outbox w ++ [replied m (opening_prompt t)]) w))).
Proof.
  intros Hup Hin Htext. split; [apply reply_to_ok, Hup|].
  unfold keyboard_markup in Hin.
  assert (Ht : exists t, keyword t = label).
  { repeat (apply elem_of_cons in Hin as [->|Hin];
            [first [exists Sports; reflexivity|exists Reading; reflexivity
                   |exists Music; reflexivity|exists Art; reflexivity]|]).
    by apply elem_of_nil in Hin. }
  destruct Ht as [t <-].
  pose proof (handle_message_keyword t m w Hup Htext) as Hrun.
  exists t. destruct t; eexists; (split; [reflexivity|split; [reflexivity|exact Hrun]]).
Qed.

Lemma keyboard_buttons_start_chains_witness :
  let m := mkMessage 1 7 "private" (Some "Art") in
  let w := initial_world (mkWeb (Ok "") (fun _ => Ok [])) in
  cont <$> (registry (snd (handle_message m w)) !! 7) = Some K_handle_artist.
Proof.
  intros m w.
  destruct (keyboard_buttons_start_chains m w "Art" eq_refl
              ltac:(unfold keyboard_markup; set_solver) eq_refl)
    as (_ & t & first & Hkw & Hfirst & Hrun).
  rewrite Hrun. simpl. rewrite lookup_insert_eq. simpl.
  destruct t; try discriminate Hkw. simpl in Hfirst. congruence.
Defined.
